(** * analyze_indentation.py: detection of cumulative indentation

    A shallow embedding of [analyze_terminal_output] and of the script's
    [__main__] block, followed by the properties of the four stages
    (sanitizer, line splitter, content locator, indentation judge). *)

From Stdlib Require Import String Ascii.
From Stdlib Require Import List NArith Arith Bool Lia Sorted.
From Equations Require Import Equations.
From Equations.Prop Require Import Logic.
Import ListNotations.

Set Implicit Arguments.

(** ** Python strings

    A Python [str] is a sequence of Unicode code points. *)

Definition char := N.
Definition str := list char.
Bind Scope N_scope with char.

(** ASCII literals of the source, as code points. *)
Definition lit (s : string) : str :=
  map N_of_ascii (list_ascii_of_string s).
Arguments lit s%_string.

Definition ESC : char := 27%N.       (* '\x1b' *)
Definition LBRACKET : char := 91%N.  (* '[' *)
Definition NEWLINE : char := 10%N.   (* '\n' *)
Definition SPACE : char := 32%N.     (* ' ' *)
Definition TAB : char := 9%N.        (* '\t' *)
Definition MARKER : str := [10022%N]. (* the one-character string U+2726 *)

Definition in_range (lo hi c : char) : bool := (lo <=? c)%N && (c <=? hi)%N.

(** [str.isspace] of one code point, as CPython decides it for [strip()]:
    the ASCII table below 128 and the Unicode white-space property above. *)
Definition isspace (c : char) : bool :=
  in_range 9 13 c || in_range 28 32 c
  || (c =? 133)%N || (c =? 160)%N || (c =? 5760)%N
  || in_range 8192 8202 c || (c =? 8232)%N || (c =? 8233)%N
  || (c =? 8239)%N || (c =? 8287)%N || (c =? 12288)%N.

(** [s.startswith(p)] *)
Fixpoint startswith (p s : str) : bool :=
  match p, s with
  | [], _ => true
  | _ :: _, [] => false
  | a :: p', b :: s' => (a =? b)%N && startswith p' s'
  end.

(** [needle in s] *)
Fixpoint contains (needle s : str) : bool :=
  match s with
  | [] => startswith needle []
  | _ :: t => startswith needle s || contains needle t
  end.

(** [s.lstrip(chars)]: drops the leading characters that belong to [chars]. *)
Fixpoint lstrip (chars : str) (s : str) : str :=
  match s with
  | [] => []
  | c :: t => if existsb (N.eqb c) chars then lstrip chars t else s
  end.

Fixpoint lstrip_ws (s : str) : str :=
  match s with
  | [] => []
  | c :: t => if isspace c then lstrip_ws t else s
  end.

Definition rstrip_ws (s : str) : str := rev (lstrip_ws (rev s)).

(** [s.strip()] *)
Definition strip (s : str) : str := rstrip_ws (lstrip_ws s).

(** [s.split(sep)] for a one-character separator. *)
Fixpoint split (sep : char) (s : str) : list str :=
  match s with
  | [] => [[]]
  | c :: t =>
      if (c =? sep)%N then [] :: split sep t
      else match split sep t with
           | l :: ls => (c :: l) :: ls
           | [] => [[c]]
           end
  end.

(** [enumerate(l)] *)
Definition enumerate (A : Type) (l : list A) : list (nat * A) :=
  combine (seq 0 (length l)) l.

(** ** The regular expression

    The fragment of [re] the script uses: a sequence of items, each one
    character of a class or a greedy star over a class. *)

Inductive item : Type :=
| One (cls : char -> bool)
| Many (cls : char -> bool).

Definition regex := list item.

(** Backtracking match at the start of [s]; the result is the text left
    after the match.  A star first takes one more character and falls back
    to the rest of the pattern when that fails. *)
Fixpoint re_match (re : regex) : str -> option str :=
  match re with
  | [] => fun s => Some s
  | One cls :: re' => fun s =>
      match s with
      | c :: t => if cls c then re_match re' t else None
      | [] => None
      end
  | Many cls :: re' =>
      fix star (s : str) : option str :=
        match s with
        | c :: t =>
            if cls c then
              match star t with
              | Some r => Some r
              | None => re_match re' s
              end
            else re_match re' s
        | [] => re_match re' s
        end
  end.

(** [re.sub('', s)]: every leftmost non-overlapping match is deleted; where
    nothing (or only the empty string) matches, the character is kept and
    the scan moves one position on. *)
Equations? re_sub (re : regex) (s : str) : str by wf (length s) lt :=
  re_sub re [] := [];
  re_sub re (c :: t) with inspect (re_match re (c :: t)) := {
    | exist _ (Some r) _ with inspect (length r <? length (c :: t)) := {
        | exist _ true _ => re_sub re r;
        | exist _ false _ => c :: re_sub re t };
    | exist _ None _ => c :: re_sub re t }.
Proof. apply Nat.ltb_lt. assumption. Qed.

Definition is_digit_or_semicolon (c : char) : bool :=
  in_range 48 57 c || (c =? 59)%N.                    (* [0-9;] *)
Definition is_letter (c : char) : bool :=
  in_range 97 122 c || in_range 65 90 c.              (* [a-zA-Z] *)

(** [re.compile(r'\x1b\[[0-9;]*[a-zA-Z]')] *)
Definition ansi_escape : regex :=
  [One (N.eqb ESC); One (N.eqb LBRACKET); Many is_digit_or_semicolon; One is_letter].

(** ** Printing and exceptions

    Each [print] of the source is an event that carries the values the
    formatted text interpolates; a computation yields the events printed so
    far and either a value or the exception raised. *)

Inductive event : Type :=
| PrintAnalysisHeader                                  (* === TERMINAL OUTPUT ANALYSIS === *)
| PrintRawLength (n : nat)                             (* Raw output length: n characters *)
| PrintCleanedHeader                                   (* === CLEANED OUTPUT === *)
| PrintLine (n : nat) (line : str) (len : nat)         (* Line n: 'line' (len: len) *)
| PrintTestHeader                                      (* === TEST CONTENT ANALYSIS === *)
| PrintNoTestContent                                   (* No test content found! *)
| PrintMatch (n : nat) (text : str) (spaces : nat)     (* Line n: 'text' -> spaces spaces *)
| PrintRaw (raw : str)                                 (*   Raw: raw *)
| PrintCheckHeader                                     (* === INDENTATION CHECK === *)
| PrintFound (n : nat)                                 (* Found n continuation lines *)
| PrintExpected (n : nat)                              (* Expected indentation: n spaces *)
| PrintCumulative (text : str) (spaces prev : nat)     (* CUMULATIVE INDENT FOUND: ... *)
| PrintInconsistent (text : str) (spaces expected : nat) (* INCONSISTENT INDENT: ... *)
| PrintCorrect (text : str) (spaces : nat)             (* Line 'text' has correct spaces spaces *)
| PrintNoCumulative                                    (* No cumulative indentation problem detected *)
| PrintNotEnough.                                      (* Not enough continuation lines for analysis *)

Inductive exn : Type :=
| IndexError
| SystemExit (status : nat).

Inductive result (A : Type) : Type :=
| Return (a : A)
| Raise (e : exn).
Arguments Raise {A} e.

Definition M (A : Type) : Type := (list event * result A)%type.

Definition ret (A : Type) (a : A) : M A := ([], Return a).

Definition bind (A B : Type) (m : M A) (k : A -> M B) : M B :=
  match m with
  | (log, Return a) => let (log', r) := k a in (log ++ log', r)
  | (log, Raise e) => (log, Raise e)
  end.

Definition print (e : event) : M unit := ([e], Return tt).
Definition raise (A : Type) (e : exn) : M A := ([], Raise e).
Arguments raise {A} e.

Declare Scope py_scope.
Delimit Scope py_scope with py.
Notation "x <- m ;; k" := (bind m (fun x => k))
  (at level 61, m at next level, right associativity) : py_scope.
Notation "m ;; k" := (bind m (fun _ => k))
  (at level 61, right associativity) : py_scope.
Local Open Scope py_scope.

(** [l[i]] for an index that is not negative. *)
Definition getitem (A : Type) (l : list A) (i : nat) : M A :=
  match nth_error l i with
  | Some x => ret x
  | None => raise IndexError
  end.

(** [for x in l: body], without and with a variable the body assigns. *)
Fixpoint for_each (A : Type) (l : list A) (body : A -> M unit) : M unit :=
  match l with
  | [] => ret tt
  | x :: l' => body x ;; for_each l' body
  end.

Fixpoint for_loop (A S : Type) (l : list A) (body : A -> S -> M S) (s : S) : M S :=
  match l with
  | [] => ret s
  | x :: l' => s' <- body x s ;; for_loop l' body s'
  end.

(** ** analyze_terminal_output *)

(** One entry of [test_lines]; [raw_line] is the line of which the source
    keeps the [repr] for the diagnostic echo. *)
Record test_line : Type := {
  line_num : nat;
  content : str;
  leading_spaces : nat;
  raw_line : str
}.

(** ['aaaa', 'bbbb', 'cccc', 'dddd'] *)
Definition TOKENS : list str := [lit "aaaa"; lit "bbbb"; lit "cccc"; lit "dddd"].

Definition clean_output (output : str) : str := re_sub ansi_escape output.

Definition lines (output : str) : list str := split NEWLINE (clean_output output).

(** [any(content in line for content in ['aaaa', 'bbbb', 'cccc', 'dddd'])] *)
Definition has_token (line : str) : bool :=
  existsb (fun token => contains token line) TOKENS.

(** The loop that fills [test_lines], on any list of lines. *)
Definition locate (ls : list str) : list test_line :=
  fold_left
    (fun acc '(i, line) =>
       if has_token line then
         acc ++ [ {| line_num := i + 1;
                     content := strip line;
                     leading_spaces := length line - length (lstrip [SPACE] line);
                     raw_line := line |} ]
       else acc)
    (enumerate ls) [].

Definition test_lines (output : str) : list test_line := locate (lines output).

Definition is_continuation (tl : test_line) : bool :=
  negb (contains MARKER (content tl)).

Definition continuation_lines (output : str) : list test_line :=
  filter is_continuation (test_lines output).

(** The body of the checking loop. *)
Definition check_line (continuation_lines : list test_line) (expected_indent : nat)
    (x : nat * test_line) (cumulative_problem : bool) : M bool :=
  let (i, tl) := x in
  grows <- (if 0 <? i then
              prev <- getitem continuation_lines (i - 1) ;;
              ret (leading_spaces prev <? leading_spaces tl)
            else ret false) ;;
  if grows : bool then
    prev <- getitem continuation_lines (i - 1) ;;
    print (PrintCumulative (content tl) (leading_spaces tl) (leading_spaces prev)) ;;
    ret true
  else if negb (leading_spaces tl =? expected_indent) then
    print (PrintInconsistent (content tl) (leading_spaces tl) expected_indent) ;;
    ret cumulative_problem
  else
    print (PrintCorrect (content tl) (leading_spaces tl)) ;;
    ret cumulative_problem.

Definition analyze_terminal_output (output : str) : M bool :=
  print PrintAnalysisHeader ;;
  print (PrintRawLength (length output)) ;;
  print PrintCleanedHeader ;;
  for_each (enumerate (lines output))
    (fun '(i, line) =>
       match strip line with
       | [] => ret tt
       | _ :: _ => print (PrintLine (i + 1) line (length line))
       end) ;;
  print PrintTestHeader ;;
  match test_lines output with
  | [] => print PrintNoTestContent ;; ret false
  | _ :: _ =>
      for_each (test_lines output)
        (fun tl =>
           print (PrintMatch (line_num tl) (content tl) (leading_spaces tl)) ;;
           print (PrintRaw (raw_line tl))) ;;
      print PrintCheckHeader ;;
      print (PrintFound (length (continuation_lines output))) ;;
      if 2 <=? length (continuation_lines output) then
        first <- getitem (continuation_lines output) 0 ;;
        let expected_indent := leading_spaces first in
        print (PrintExpected expected_indent) ;;
        cumulative_problem <-
          for_loop (enumerate (continuation_lines output))
                   (check_line (continuation_lines output) expected_indent) false ;;
        (if negb cumulative_problem then print PrintNoCumulative else ret tt) ;;
        ret cumulative_problem
      else
        print PrintNotEnough ;;
        ret false
  end.

(** ** __main__

    [output] is the text read from the file named on the command line or,
    without an argument, from standard input. *)

Definition sys_exit (status : nat) : M unit := raise (SystemExit status).

Definition main (output : str) : M unit :=
  has_problem <- analyze_terminal_output output ;;
  sys_exit (if has_problem : bool then 1 else 0).

(** The status the process ends with: the argument of [sys.exit], 1 after
    any other exception, 0 when the script runs to its end. *)
Definition exit_status (A : Type) (m : M A) : nat :=
  match snd m with
  | Raise (SystemExit status) => status
  | Raise IndexError => 1
  | Return _ => 0
  end.

(** ** Vocabulary of the specification *)

(** A control sequence: the escape character, '[', zero or more digits or
    semicolons, one letter. *)
Definition is_csi (m : str) : Prop :=
  exists ds l,
    m = ESC :: LBRACKET :: ds ++ [l]
    /\ forallb is_digit_or_semicolon ds = true
    /\ is_letter l = true.

(** No control sequence occurs in [u]. *)
Definition no_csi (u : str) : Prop :=
  forall a m b, u = a ++ m ++ b -> ~ is_csi m.

(** A control sequence that stops before its letter. *)
Definition is_csi_start (p : str) : Prop :=
  p = [ESC]
  \/ exists ds, p = ESC :: LBRACKET :: ds /\ forallb is_digit_or_semicolon ds = true.

(** No unfinished control sequence is directly followed by a complete one. *)
Definition splice_free (s : str) : Prop :=
  forall a p m b, s = a ++ p ++ m ++ b -> is_csi_start p -> ~ is_csi m.

(** Every escape character of the text starts a control sequence. *)
Fixpoint well_formed (s : str) : bool :=
  match s with
  | [] => true
  | c :: t =>
      (if (c =? ESC)%N
       then match re_match ansi_escape (c :: t) with Some _ => true | None => false end
       else true)
      && well_formed t
  end.

(** A text cut into kept pieces and removed pieces:
    [u0 m1 u1 m2 u2 ...], and what is left when every [m] is taken out. *)
Definition weave (u0 : str) (rest : list (str * str)) : str :=
  u0 ++ flat_map (fun x => fst x ++ snd x) rest.
Definition kept (u0 : str) (rest : list (str * str)) : str :=
  u0 ++ flat_map (fun x => snd x) rest.

(** The number of space characters a line starts with. *)
Fixpoint indent (line : str) : nat :=
  match line with
  | c :: t => if (c =? SPACE)%N then S (indent t) else 0
  | [] => 0
  end.

(** The record the locator makes of line [snd x] at index [fst x]. *)
Definition record_of (x : nat * str) : test_line :=
  {| line_num := fst x + 1;
     content := strip (snd x);
     leading_spaces := length (snd x) - length (lstrip [SPACE] (snd x));
     raw_line := snd x |}.

(** A line that is judged: it holds a token and, trimmed, no marker. *)
Definition is_judged (line : str) : bool :=
  has_token line && negb (contains MARKER (strip line)).

(** Whether an indentation exceeds that of the predecessor, if there is one. *)
Definition grows_over (prev : option nat) (n : nat) : bool :=
  match prev with
  | Some p => p <? n
  | None => false
  end.

(** The judgement of one record: cumulative growth against the predecessor,
    and only otherwise inconsistency against the expected indentation. *)
Definition classify (prev : option nat) (expected : nat) (tl : test_line) : event :=
  if grows_over prev (leading_spaces tl) then
    PrintCumulative (content tl) (leading_spaces tl)
                    (match prev with Some p => p | None => 0 end)
  else if leading_spaces tl =? expected then
    PrintCorrect (content tl) (leading_spaces tl)
  else
    PrintInconsistent (content tl) (leading_spaces tl) expected.

Fixpoint judge_log (prev : option nat) (expected : nat) (l : list test_line) : list event :=
  match l with
  | [] => []
  | tl :: l' => classify prev expected tl :: judge_log (Some (leading_spaces tl)) expected l'
  end.

(** Some indentation of the sequence exceeds the one before it. *)
Fixpoint grows (prev : option nat) (l : list nat) : bool :=
  match l with
  | [] => false
  | n :: l' => grows_over prev n || grows (Some n) l'
  end.

Definition has_growth (l : list nat) : bool := grows None l.

(** The indentation of the last record of a list, if any. *)
Definition last_indent (pre : list test_line) : option nat :=
  match rev pre with
  | [] => None
  | p :: _ => Some (leading_spaces p)
  end.

(** The three judgements among the printed events. *)
Definition is_judgement (e : event) : bool :=
  match e with
  | PrintCumulative _ _ _ | PrintInconsistent _ _ _ | PrintCorrect _ _ => true
  | _ => false
  end.

Definition judgements (log : list event) : list event := filter is_judgement log.

Definition is_cumulative (e : event) : bool :=
  match e with
  | PrintCumulative _ _ _ => true
  | _ => false
  end.

(** The whole transcript of a run and its verdict. *)
Definition dump_line (x : nat * str) : list event :=
  match strip (snd x) with
  | [] => []
  | _ :: _ => [PrintLine (fst x + 1) (snd x) (length (snd x))]
  end.

Definition echo_match (tl : test_line) : list event :=
  [PrintMatch (line_num tl) (content tl) (leading_spaces tl); PrintRaw (raw_line tl)].

Definition verdict (output : str) : bool :=
  has_growth (map leading_spaces (continuation_lines output)).

Definition judge_report (output : str) : list event :=
  match continuation_lines output with
  | first :: _ :: _ =>
      PrintExpected (leading_spaces first)
      :: judge_log None (leading_spaces first) (continuation_lines output)
      ++ (if verdict output then [] else [PrintNoCumulative])
  | _ => [PrintNotEnough]
  end.

Definition report (output : str) : list event :=
  [PrintAnalysisHeader; PrintRawLength (length output); PrintCleanedHeader]
  ++ flat_map dump_line (enumerate (lines output))
  ++ [PrintTestHeader]
  ++ match test_lines output with
     | [] => [PrintNoTestContent]
     | _ :: _ =>
         flat_map echo_match (test_lines output)
         ++ [PrintCheckHeader; PrintFound (length (continuation_lines output))]
         ++ judge_report output
     end.

(** [sep.join(ls)] for a one-character separator: the text whose lines,
    in order, are [ls]. *)
Fixpoint join (sep : char) (ls : list str) : str :=
  match ls with
  | [] => []
  | l :: ls' =>
      match ls' with
      | [] => l
      | _ :: _ => l ++ sep :: join sep ls'
      end
  end.

(** A line that, trimmed, holds no marker. *)
Definition no_marker (line : str) : bool := negb (contains MARKER (strip line)).

(** ** Inputs of the scenarios *)

Definition sp (n : nat) : str := repeat SPACE n.

(** A header line with the marker, wrapped in colour sequences, then three
    lines indented by [a], [b] and [c] spaces. *)
Definition scenario (a b c : nat) : str :=
  ESC :: lit "[32m" ++ MARKER ++ lit " header" ++ ESC :: lit "[0m" ++ [NEWLINE]
  ++ sp a ++ lit "aaaa first" ++ [NEWLINE]
  ++ sp b ++ lit "bbbb second" ++ [NEWLINE]
  ++ sp c ++ lit "cccc third" ++ [NEWLINE].

Definition end_to_end : str := scenario 4 6 8.

(** The same three lines with a line that holds a token and the marker,
    indented by 20 spaces, after the first of them. *)
Definition with_marker_line (a b c : nat) : str :=
  sp a ++ lit "aaaa first" ++ [NEWLINE]
  ++ sp 20 ++ lit "aaaa " ++ MARKER ++ lit " more" ++ [NEWLINE]
  ++ sp b ++ lit "bbbb second" ++ [NEWLINE]
  ++ sp c ++ lit "cccc third" ++ [NEWLINE].

(** An unfinished sequence, a complete one, and the letter that finishes
    the first once the second is gone. *)
Definition spliced : str := ESC :: lit "[" ++ ESC :: lit "[0mm".

(** A text that cannot continue a control sequence begun before it: it is
    empty, or its first character is none of '[', digit, semicolon, letter. *)
Definition barrier (x : str) : bool :=
  match x with
  | [] => true
  | c :: _ => negb ((LBRACKET =? c)%N || is_digit_or_semicolon c || is_letter c)
  end.

(** The text after the digits and semicolons at the start of [s]. *)
Fixpoint skip_params (s : str) : str :=
  match s with
  | [] => []
  | c :: t => if is_digit_or_semicolon c then skip_params t else s
  end.

(** * Properties *)

Unset Implicit Arguments.

(** ** The scenarios of the specification, run *)

Example colour_sequences_removed :
  clean_output (ESC :: lit "[32mab" ++ ESC :: lit "[0m") = lit "ab".
Proof. reflexivity. Qed.

Example other_escapes_kept :
  clean_output (ESC :: lit "[?25h" ++ ESC :: lit "]0;title") =
  ESC :: lit "[?25h" ++ ESC :: lit "]0;title".
Proof. reflexivity. Qed.

Example end_to_end_lines :
  lines end_to_end =
  [MARKER ++ lit " header"; sp 4 ++ lit "aaaa first"; sp 6 ++ lit "bbbb second";
   sp 8 ++ lit "cccc third"; []].
Proof. reflexivity. Qed.

Example end_to_end_judgements :
  judgements (fst (analyze_terminal_output end_to_end)) =
  [PrintCorrect (lit "aaaa first") 4;
   PrintCumulative (lit "bbbb second") 6 4;
   PrintCumulative (lit "cccc third") 8 6].
Proof. vm_compute. reflexivity. Qed.

Example clean_scenario :
  snd (analyze_terminal_output (scenario 4 4 4)) = Return false
  /\ exit_status (main (scenario 4 4 4)) = 0.
Proof. split; vm_compute; reflexivity. Qed.

Example decrease_then_increase :
  map leading_spaces (continuation_lines (scenario 4 2 4)) = [4; 2; 4]
  /\ snd (analyze_terminal_output (scenario 4 2 4)) = Return true.
Proof. split; vm_compute; reflexivity. Qed.

Example tab_is_not_a_space :
  test_lines (sp 2 ++ [TAB] ++ lit "aaaa ") =
  [{| line_num := 1; content := lit "aaaa"; leading_spaces := 2;
      raw_line := sp 2 ++ [TAB] ++ lit "aaaa " |}].
Proof. reflexivity. Qed.

(** ** The line splitter *)

Lemma split_not_nil sep s : split sep s <> [].
Proof.
  destruct s as [|c t]; cbn [split]; [discriminate|].
  destruct (c =? sep)%N; [discriminate|].
  destruct (split sep t); discriminate.
Qed.

Lemma join_split sep s : join sep (split sep s) = s.
Proof.
  induction s as [|c t IH]; [reflexivity|]. cbn [split].
  pose proof (split_not_nil sep t) as NE.
  destruct (N.eqb_spec c sep) as [->|_].
  - destruct (split sep t) as [|l ls]; [congruence|].
    cbn [join app] in *. rewrite IH. reflexivity.
  - destruct (split sep t) as [|l ls]; [congruence|].
    cbn [join] in *. destruct ls; cbn [app]; rewrite IH; reflexivity.
Qed.

Lemma split_no_sep sep s : Forall (fun l => ~ In sep l) (split sep s).
Proof.
  induction s as [|c t IH]; cbn [split].
  - constructor; [intros []|constructor].
  - destruct (N.eqb_spec c sep) as [->|Hc].
    + constructor; [intros []|exact IH].
    + destruct (split sep t) as [|l ls]; [repeat constructor; intros [?|[]]; congruence|].
      apply Forall_cons_iff in IH as [H1 H2].
      constructor; [|exact H2]. intros [E|I]; [congruence | exact (H1 I)].
Qed.

(** ** The regular expression and the sanitizer *)

Lemma params_not_letter c : is_digit_or_semicolon c = true -> is_letter c = false.
Proof.
  unfold is_digit_or_semicolon, is_letter, in_range. intros H.
  repeat match goal with
         | |- context [(?a <=? ?b)%N] => destruct (N.leb_spec a b)
         | H : context [(?a <=? ?b)%N] |- _ => destruct (N.leb_spec a b)
         | H : context [(?a =? ?b)%N] |- _ => destruct (N.eqb_spec a b)
         end; simpl in *; try reflexivity; try discriminate; lia.
Qed.

Lemma star_letter s :
  re_match [Many is_digit_or_semicolon; One is_letter] s =
  match skip_params s with
  | l :: r => if is_letter l then Some r else None
  | [] => None
  end.
Proof.
  induction s as [|c t IH]; [reflexivity|].
  simpl in *. destruct (is_digit_or_semicolon c) eqn:Hc.
  - rewrite IH. destruct (skip_params t) as [|l r].
    + rewrite (params_not_letter _ Hc). reflexivity.
    + destruct (is_letter l); [reflexivity|].
      rewrite (params_not_letter _ Hc). reflexivity.
  - reflexivity.
Qed.

Lemma re_match_ansi s :
  re_match ansi_escape s =
  match s with
  | c0 :: c1 :: t =>
      if (ESC =? c0)%N && (LBRACKET =? c1)%N then
        match skip_params t with
        | l :: r => if is_letter l then Some r else None
        | [] => None
        end
      else None
  | _ => None
  end.
Proof.
  destruct s as [|c0 [|c1 t]].
  - reflexivity.
  - unfold ansi_escape. cbn [re_match]. destruct (ESC =? c0)%N; reflexivity.
  - change (re_match ansi_escape (c0 :: c1 :: t)) with
      (if (ESC =? c0)%N then
         if (LBRACKET =? c1)%N then re_match [Many is_digit_or_semicolon; One is_letter] t
         else None
       else None).
    rewrite star_letter.
    destruct (ESC =? c0)%N, (LBRACKET =? c1)%N; reflexivity.
Qed.

Lemma re_sub_step re s :
  re_sub re s =
  match s with
  | [] => []
  | c :: t =>
      match re_match re (c :: t) with
      | Some r => if length r <? length (c :: t) then re_sub re r else c :: re_sub re t
      | None => c :: re_sub re t
      end
  end.
Proof.
  funelim (re_sub re s); try rewrite e; try rewrite e0; reflexivity.
Qed.

Lemma skip_params_length s : length (skip_params s) <= length s.
Proof.
  induction s as [|c t IH]; simpl; [lia|].
  destruct (is_digit_or_semicolon c); simpl; lia.
Qed.

Lemma skip_params_split s :
  exists ds, s = ds ++ skip_params s /\ forallb is_digit_or_semicolon ds = true.
Proof.
  induction s as [|c t [ds [E F]]]; simpl.
  - exists []. split; reflexivity.
  - destruct (is_digit_or_semicolon c) eqn:Hc.
    + exists (c :: ds). simpl. rewrite Hc, F. split; [congruence | reflexivity].
    + exists []. split; reflexivity.
Qed.

Lemma skip_params_app ds x :
  forallb is_digit_or_semicolon ds = true -> skip_params (ds ++ x) = skip_params x.
Proof.
  induction ds as [|d ds IH]; simpl; [reflexivity|].
  intros H. apply andb_true_iff in H as [Hd Hds]. rewrite Hd. auto.
Qed.

Lemma skip_params_stop c t :
  is_digit_or_semicolon c = false -> skip_params (c :: t) = c :: t.
Proof. intros H. simpl. rewrite H. reflexivity. Qed.

Lemma letter_not_param c : is_letter c = true -> is_digit_or_semicolon c = false.
Proof.
  intros H. destruct (is_digit_or_semicolon c) eqn:E; [|reflexivity].
  apply params_not_letter in E. congruence.
Qed.

Lemma match_shorter s r : re_match ansi_escape s = Some r -> length r < length s.
Proof.
  rewrite re_match_ansi. destruct s as [|c0 [|c1 t]]; try discriminate.
  destruct ((ESC =? c0)%N && (LBRACKET =? c1)%N); try discriminate.
  pose proof (skip_params_length t) as L.
  destruct (skip_params t) as [|l r']; try discriminate.
  destruct (is_letter l); try discriminate.
  intros [= <-]. simpl in *. lia.
Qed.

Lemma match_csi_iff s r :
  re_match ansi_escape s = Some r <-> exists m, is_csi m /\ s = m ++ r.
Proof.
  rewrite re_match_ansi. split.
  - destruct s as [|c0 [|c1 t]]; try discriminate.
    destruct (N.eqb_spec ESC c0) as [<-|]; try discriminate.
    destruct (N.eqb_spec LBRACKET c1) as [<-|]; try discriminate.
    simpl. destruct (skip_params_split t) as [ds [E F]].
    destruct (skip_params t) as [|l r']; try discriminate.
    destruct (is_letter l) eqn:Hl; try discriminate.
    intros [= <-]. exists (ESC :: LBRACKET :: ds ++ [l]). split.
    + exists ds, l. auto.
    + simpl. rewrite <- app_assoc. simpl. congruence.
  - intros [m [[ds [l [-> [F Hl]]]] ->]]. cbn [app].
    rewrite !N.eqb_refl. cbn [andb]. rewrite <- app_assoc. cbn [app].
    rewrite (skip_params_app ds _ F), (skip_params_stop l _ (letter_not_param _ Hl)), Hl.
    reflexivity.
Qed.

Lemma clean_nil : clean_output [] = [].
Proof. reflexivity. Qed.

Lemma clean_match c t r :
  re_match ansi_escape (c :: t) = Some r -> clean_output (c :: t) = clean_output r.
Proof.
  intros H. unfold clean_output. rewrite (re_sub_step _ (c :: t)), H.
  apply match_shorter, Nat.ltb_lt in H. rewrite H. reflexivity.
Qed.

Lemma clean_keep c t :
  re_match ansi_escape (c :: t) = None -> clean_output (c :: t) = c :: clean_output t.
Proof.
  intros H. unfold clean_output. rewrite (re_sub_step _ (c :: t)), H. reflexivity.
Qed.

(** Induction along the scan of the sanitizer. *)
Lemma clean_ind (P : str -> str -> Prop) :
  P [] [] ->
  (forall c t r, re_match ansi_escape (c :: t) = Some r ->
                 P r (clean_output r) -> P (c :: t) (clean_output r)) ->
  (forall c t, re_match ansi_escape (c :: t) = None ->
               P t (clean_output t) -> P (c :: t) (c :: clean_output t)) ->
  forall s, P s (clean_output s).
Proof.
  intros Hnil Hdrop Hkeep s.
  remember (length s) as n eqn:En. revert s En.
  induction n as [n IH] using lt_wf_ind. intros [|c t] En.
  - exact Hnil.
  - destruct (re_match ansi_escape (c :: t)) as [r|] eqn:E.
    + rewrite (clean_match _ _ _ E). apply Hdrop; [exact E|].
      apply (IH (length r)); [|reflexivity].
      subst n. apply (match_shorter _ _ E).
    + rewrite (clean_keep _ _ E). apply Hkeep; [exact E|].
      apply (IH (length t)); [|reflexivity]. subst n. simpl. lia.
Qed.

Lemma csi_starts_with_esc m : is_csi m -> exists m', m = ESC :: m'.
Proof. intros [ds [l [-> _]]]. eauto. Qed.

Lemma no_csi_nil : no_csi [].
Proof.
  intros a m b E [m' ->]%csi_starts_with_esc.
  destruct a; discriminate.
Qed.

Lemma no_csi_tail c u : no_csi (c :: u) -> no_csi u.
Proof. intros H a m b ->. apply (H (c :: a) m b). reflexivity. Qed.

Lemma no_csi_cons c u :
  no_csi u -> (forall m b, c :: u = m ++ b -> ~ is_csi m) -> no_csi (c :: u).
Proof.
  intros Hu Hc [|x a] m b E.
  - apply (Hc m b E).
  - injection E as _ E. apply (Hu a m b E).
Qed.

Lemma no_csi_no_match c t : no_csi (c :: t) -> re_match ansi_escape (c :: t) = None.
Proof.
  intros H. destruct (re_match ansi_escape (c :: t)) as [r|] eqn:E; [|reflexivity].
  apply match_csi_iff in E as [m [Hm E]].
  exfalso. apply (H [] m r); assumption.
Qed.

Lemma clean_no_csi s : no_csi s -> clean_output s = s.
Proof.
  induction s as [|c t IH]; intros H; [reflexivity|].
  rewrite (clean_keep _ _ (no_csi_no_match _ _ H)), (IH (no_csi_tail _ _ H)). reflexivity.
Qed.

Lemma clean_decomposition s :
  exists u0 rest,
    s = weave u0 rest /\ clean_output s = kept u0 rest /\ no_csi u0
    /\ Forall (fun x => is_csi (fst x) /\ no_csi (snd x)) rest.
Proof.
  apply (clean_ind (fun s out => exists u0 rest,
    s = weave u0 rest /\ out = kept u0 rest /\ no_csi u0
    /\ Forall (fun x => is_csi (fst x) /\ no_csi (snd x)) rest)).
  - exists [], []. repeat split; auto using no_csi_nil.
  - intros c t r E (u0 & rest & Hs & Hout & Hu & Hrest).
    apply match_csi_iff in E as [m [Hm E]].
    exists [], ((m, u0) :: rest). repeat split.
    + rewrite E, Hs. unfold weave. simpl. rewrite <- app_assoc. reflexivity.
    + rewrite Hout. unfold kept. reflexivity.
    + apply no_csi_nil.
    + constructor; auto.
  - intros c t E (u0 & rest & Hs & Hout & Hu & Hrest).
    exists (c :: u0), rest. repeat split; auto.
    + rewrite Hs. reflexivity.
    + rewrite Hout. reflexivity.
    + apply no_csi_cons; [exact Hu|]. intros m b Em Hm.
      assert (H : re_match ansi_escape (c :: t) = Some (b ++ flat_map (fun x => fst x ++ snd x) rest)).
      { apply match_csi_iff. exists m. split; [exact Hm|].
        rewrite Hs. unfold weave. rewrite app_assoc, <- Em. reflexivity. }
      congruence.
Qed.

Lemma skip_params_app_barrier t x :
  barrier x = true -> skip_params (t ++ x) = skip_params t ++ x.
Proof.
  intros B. induction t as [|c t IH]; simpl.
  - destruct x as [|c r]; [reflexivity|]. simpl in *.
    destruct (is_digit_or_semicolon c); [|reflexivity].
    rewrite orb_true_r in B. discriminate.
  - destruct (is_digit_or_semicolon c); [exact IH | reflexivity].
Qed.

Lemma match_app_barrier a x :
  barrier x = true -> a <> [] ->
  re_match ansi_escape (a ++ x) = option_map (fun r => r ++ x) (re_match ansi_escape a).
Proof.
  intros B Ha. rewrite !re_match_ansi.
  destruct a as [|c0 [|c1 t]]; [congruence | |].
  - cbn [app option_map]. destruct x as [|c1 r]; [reflexivity|].
    cbn [barrier] in B. destruct (LBRACKET =? c1)%N; [discriminate|].
    rewrite andb_false_r. reflexivity.
  - cbn [app]. destruct ((ESC =? c0)%N && (LBRACKET =? c1)%N); [|reflexivity].
    rewrite (skip_params_app_barrier t x B).
    destruct (skip_params t) as [|l r]; cbn [app].
    + destruct x as [|c r]; [reflexivity|]. cbn [barrier] in B.
      destruct (is_letter c); [|reflexivity].
      rewrite !orb_true_r in B. discriminate.
    + destruct (is_letter l); reflexivity.
Qed.

Lemma clean_app_barrier a x :
  barrier x = true -> clean_output (a ++ x) = clean_output a ++ clean_output x.
Proof.
  intros B.
  apply (clean_ind (fun a out => clean_output (a ++ x) = out ++ clean_output x)).
  - reflexivity.
  - intros c t r E IH.
    pose proof (match_app_barrier (c :: t) x B ltac:(discriminate)) as M.
    rewrite E in M. cbn [option_map] in M.
    cbn [app] in *. rewrite (clean_match _ _ _ M). exact IH.
  - intros c t E IH.
    pose proof (match_app_barrier (c :: t) x B ltac:(discriminate)) as M.
    rewrite E in M. cbn [option_map] in M.
    cbn [app] in *. rewrite (clean_keep _ _ M), IH. reflexivity.
Qed.

Lemma csi_barrier m b : is_csi m -> barrier (m ++ b) = true.
Proof. intros [m' ->]%csi_starts_with_esc. reflexivity. Qed.

Lemma clean_csi_prefix m b : is_csi m -> clean_output (m ++ b) = clean_output b.
Proof.
  intros Hm. destruct (csi_starts_with_esc _ Hm) as [m' E].
  rewrite E. cbn [app]. apply clean_match. apply match_csi_iff.
  exists m. split; [exact Hm | rewrite E; reflexivity].
Qed.

Lemma clean_csi_removed a m b :
  is_csi m -> clean_output (a ++ m ++ b) = clean_output a ++ clean_output b.
Proof.
  intros Hm. rewrite (clean_app_barrier _ _ (csi_barrier m b Hm)).
  rewrite (clean_csi_prefix _ _ Hm). reflexivity.
Qed.

(** *** Sanitizing twice *)

Lemma splice_free_tail c s : splice_free (c :: s) -> splice_free s.
Proof. intros H a p m b ->. apply (H (c :: a) p m b). reflexivity. Qed.

Lemma splice_free_suffix a s : splice_free (a ++ s) -> splice_free s.
Proof.
  induction a as [|c a IH]; [auto|]. intros H.
  apply IH, (splice_free_tail c), H.
Qed.

Lemma splice_free_no_match p c t :
  is_csi_start p -> splice_free (p ++ c :: t) -> re_match ansi_escape (c :: t) = None.
Proof.
  intros Hp H. destruct (re_match ansi_escape (c :: t)) as [r|] eqn:E; [|reflexivity].
  apply match_csi_iff in E as [m [Hm E]]. exfalso.
  apply (H [] p m r); [|exact Hp|exact Hm]. rewrite E. reflexivity.
Qed.

Lemma match_after_params ds x t :
  forallb is_digit_or_semicolon ds = true ->
  is_digit_or_semicolon x = false ->
  re_match ansi_escape (ESC :: LBRACKET :: ds ++ x :: t) =
  if is_letter x then Some t else None.
Proof.
  intros F Hx. rewrite re_match_ansi, !N.eqb_refl. cbn [andb].
  rewrite (skip_params_app ds _ F), (skip_params_stop _ _ Hx). reflexivity.
Qed.

Lemma splice_params ds t :
  forallb is_digit_or_semicolon ds = true ->
  splice_free (ESC :: LBRACKET :: ds ++ t) ->
  re_match ansi_escape (ESC :: LBRACKET :: ds ++ t) = None ->
  re_match ansi_escape (ESC :: LBRACKET :: ds ++ clean_output t) = None.
Proof.
  revert ds. induction t as [|x t IH]; intros ds F H E; [exact E|].
  assert (Hp : is_csi_start (ESC :: LBRACKET :: ds)) by (right; eauto).
  rewrite (clean_keep _ _ (splice_free_no_match _ x t Hp H)).
  destruct (is_digit_or_semicolon x) eqn:Hx.
  - change (x :: clean_output t) with ([x] ++ clean_output t).
    rewrite app_assoc. apply IH.
    + rewrite forallb_app, F. simpl. rewrite Hx. reflexivity.
    + rewrite <- app_assoc. exact H.
    + rewrite <- app_assoc. exact E.
  - rewrite (match_after_params ds x _ F Hx) in E.
    rewrite (match_after_params ds x _ F Hx).
    destruct (is_letter x); [discriminate | reflexivity].
Qed.

Lemma splice_esc t :
  splice_free (ESC :: t) ->
  re_match ansi_escape (ESC :: t) = None ->
  re_match ansi_escape (ESC :: clean_output t) = None.
Proof.
  intros H E. destruct t as [|x t]; [exact E|].
  assert (Hp : is_csi_start [ESC]) by (left; reflexivity).
  rewrite (clean_keep _ _ (splice_free_no_match _ x t Hp H)).
  destruct (N.eqb_spec LBRACKET x) as [<-|Hx].
  - apply (splice_params [] t); auto.
  - rewrite re_match_ansi.
    apply N.eqb_neq in Hx. rewrite Hx, andb_false_r. reflexivity.
Qed.

Lemma clean_splice_free_no_csi s : splice_free s -> no_csi (clean_output s).
Proof.
  apply (clean_ind (fun s out => splice_free s -> no_csi out)).
  - intros _. apply no_csi_nil.
  - intros c t r E IH H. apply IH.
    apply match_csi_iff in E as [m [_ E]]. rewrite E in H.
    apply (splice_free_suffix m r H).
  - intros c t E IH H. apply no_csi_cons.
    + apply IH, (splice_free_tail c), H.
    + intros m b Em Hm.
      destruct (csi_starts_with_esc _ Hm) as [m' E'].
      assert (c = ESC) by (rewrite E' in Em; cbn [app] in Em; injection Em; auto). subst c.
      assert (M : re_match ansi_escape (ESC :: clean_output t) = Some b)
        by (apply match_csi_iff; eauto).
      rewrite (splice_esc t H E) in M. discriminate.
Qed.

(** ** Strings *)

Lemma startswith_iff p s : startswith p s = true <-> exists b, s = p ++ b.
Proof.
  revert s. induction p as [|a p IH]; intros s; simpl.
  - split; eauto.
  - destruct s as [|c s].
    + split; [discriminate | intros [b E]; discriminate].
    + rewrite andb_true_iff, N.eqb_eq, IH. split.
      * intros [-> [b ->]]. eauto.
      * intros [b E]. injection E as -> ->. eauto.
Qed.

Lemma contains_iff needle s :
  contains needle s = true <-> exists a b, s = a ++ needle ++ b.
Proof.
  induction s as [|c s IH]; simpl.
  - rewrite startswith_iff. split.
    + intros [b E]. exists [], b. exact E.
    + intros [a [b E]]. destruct a; [eauto|discriminate].
  - rewrite orb_true_iff, IH.
    change (match needle with
            | [] => true
            | a :: p' => (a =? c)%N && startswith p' s
            end) with (startswith needle (c :: s)).
    rewrite startswith_iff. split.
    + intros [[b E] | [a [b E]]].
      * exists [], b. exact E.
      * exists (c :: a), b. rewrite E. reflexivity.
    + intros [[|x a] [b E]].
      * left. eauto.
      * right. injection E as _ E. eauto.
Qed.

Lemma lstrip_space_indent line :
  length line - length (lstrip [SPACE] line) = indent line.
Proof.
  assert (L : forall l, length (lstrip [SPACE] l) <= length l).
  { induction l as [|c t IH]; simpl; [lia|].
    rewrite orb_false_r. destruct (c =? SPACE)%N; simpl; lia. }
  induction line as [|c t IH]; [reflexivity|].
  cbn [lstrip existsb indent]. rewrite orb_false_r. destruct (c =? SPACE)%N.
  - specialize (L t). cbn [length]. lia.
  - cbn [length]. lia.
Qed.

Lemma indent_spec line :
  exists rest, line = repeat SPACE (indent line) ++ rest
               /\ (forall r, rest <> SPACE :: r).
Proof.
  induction line as [|c t [rest [E H]]]; simpl.
  - exists []. split; [reflexivity | discriminate].
  - destruct (N.eqb_spec c SPACE) as [->|Hc].
    + exists rest. split; [simpl; congruence | exact H].
    + exists (c :: t). split; [reflexivity | congruence].
Qed.

Lemma lstrip_ws_spec s :
  exists ws, s = ws ++ lstrip_ws s /\ forallb isspace ws = true
             /\ (forall c r, lstrip_ws s = c :: r -> isspace c = false).
Proof.
  induction s as [|c t (ws & E & F & H)]; simpl.
  - exists []. repeat split; discriminate.
  - destruct (isspace c) eqn:Hc.
    + exists (c :: ws). simpl. rewrite Hc, F. repeat split; [congruence | exact H].
    + exists []. repeat split. intros c' r [= <- _]. exact Hc.
Qed.

Lemma lstrip_ws_keeps_end s x :
  isspace x = false -> lstrip_ws (s ++ [x]) = lstrip_ws s ++ [x].
Proof.
  intros Hx. induction s as [|c t IH]; simpl.
  - rewrite Hx. reflexivity.
  - destruct (isspace c); [exact IH | reflexivity].
Qed.

Lemma strip_spec s :
  exists ws1 ws2,
    s = ws1 ++ strip s ++ ws2
    /\ forallb isspace ws1 = true /\ forallb isspace ws2 = true
    /\ (forall c r, strip s = c :: r -> isspace c = false)
    /\ (forall r c, strip s = r ++ [c] -> isspace c = false).
Proof.
  unfold strip, rstrip_ws.
  destruct (lstrip_ws_spec s) as (ws1 & E1 & F1 & H1).
  destruct (lstrip_ws_spec (rev (lstrip_ws s))) as (ws2 & E2 & F2 & H2).
  set (core := lstrip_ws (rev (lstrip_ws s))) in *.
  assert (E3 : lstrip_ws s = rev core ++ rev ws2).
  { rewrite <- rev_app_distr, <- E2, rev_involutive. reflexivity. }
  exists ws1, (rev ws2). repeat split.
  - rewrite <- E3. exact E1.
  - exact F1.
  - rewrite forallb_forall in *. intros x Hx. apply F2, in_rev, Hx.
  - intros c r E. destruct (rev core) as [|c' r'] eqn:Ec; [discriminate|].
    injection E as -> ->. apply (H1 c (r ++ rev ws2)).
    rewrite E3. reflexivity.
  - intros r c E. apply (H2 c (rev r)).
    rewrite <- (rev_involutive core). fold core. rewrite E, rev_app_distr. reflexivity.
Qed.

(** ** The locator *)

Lemma locate_from k ls acc :
  fold_left
    (fun acc '(i, line) =>
       if has_token line then
         acc ++ [ {| line_num := i + 1;
                     content := strip line;
                     leading_spaces := length line - length (lstrip [SPACE] line);
                     raw_line := line |} ]
       else acc)
    (combine (seq k (length ls)) ls) acc
  = acc ++ map record_of (filter (fun x => has_token (snd x)) (combine (seq k (length ls)) ls)).
Proof.
  revert k acc. induction ls as [|line ls IH]; intros k acc;
    cbn [length seq combine fold_left filter snd].
  - rewrite app_nil_r. reflexivity.
  - rewrite IH. destruct (has_token line); [|reflexivity].
    cbn [map]. rewrite <- app_assoc. reflexivity.
Qed.

Lemma locate_eq ls :
  locate ls = map record_of (filter (fun x => has_token (snd x)) (enumerate ls)).
Proof. unfold locate, enumerate. rewrite locate_from. reflexivity. Qed.

Lemma in_enumerate_from (A : Type) k (l : list A) i x :
  In (i, x) (combine (seq k (length l)) l) <-> k <= i /\ nth_error l (i - k) = Some x.
Proof.
  revert k. induction l as [|y l IH]; intros k; simpl.
  - split; [tauto|]. intros [_ H]. destruct (i - k); discriminate.
  - rewrite IH. split.
    + intros [[= <- <-] | [H1 H2]].
      * rewrite Nat.sub_diag. auto.
      * split; [lia|]. replace (i - k) with (S (i - S k)) by lia. exact H2.
    + intros [H1 H2]. destruct (i - k) as [|n] eqn:En.
      * left. injection H2 as ->. f_equal. lia.
      * right. split; [lia|]. replace (i - S k) with n by lia. exact H2.
Qed.

Lemma in_enumerate (A : Type) (l : list A) i x :
  In (i, x) (enumerate l) <-> nth_error l i = Some x.
Proof.
  unfold enumerate. rewrite in_enumerate_from, Nat.sub_0_r.
  split; [tauto | split; [lia | assumption]].
Qed.

Lemma in_locate ls tl :
  In tl (locate ls) <->
  exists i line, nth_error ls i = Some line /\ has_token line = true
                 /\ tl = record_of (i, line).
Proof.
  rewrite locate_eq, in_map_iff. split.
  - intros [[i line] [<- [H1 H2]%filter_In]]. apply in_enumerate in H1. eauto.
  - intros (i & line & H1 & H2 & ->). exists (i, line). split; [reflexivity|].
    apply filter_In. split; [apply in_enumerate; exact H1 | exact H2].
Qed.

Lemma filter_enumerate_snd (A : Type) (p : A -> bool) k (l : list A) :
  map snd (filter (fun x => p (snd x)) (combine (seq k (length l)) l)) = filter p l.
Proof.
  revert k. induction l as [|y l IH]; intros k; simpl; [reflexivity|].
  destruct (p y); simpl; rewrite IH; reflexivity.
Qed.

Lemma filter_map_swap (A B : Type) (f : A -> B) (p : B -> bool) (l : list A) :
  filter p (map f l) = map f (filter (fun x => p (f x)) l).
Proof.
  induction l as [|x l IH]; simpl; [reflexivity|].
  destruct (p (f x)); simpl; rewrite IH; reflexivity.
Qed.

Lemma filter_filter (A : Type) (p q : A -> bool) (l : list A) :
  filter p (filter q l) = filter (fun x => q x && p x) l.
Proof.
  induction l as [|x l IH]; simpl; [reflexivity|].
  destruct (q x); simpl; [destruct (p x)|]; rewrite IH; reflexivity.
Qed.

Lemma continuation_lines_eq output :
  continuation_lines output =
  map record_of (filter (fun x => is_judged (snd x)) (enumerate (lines output))).
Proof.
  unfold continuation_lines, test_lines. rewrite locate_eq, filter_map_swap, filter_filter.
  reflexivity.
Qed.

Lemma continuation_indents output :
  map leading_spaces (continuation_lines output) =
  map indent (filter is_judged (lines output)).
Proof.
  rewrite continuation_lines_eq. unfold enumerate.
  rewrite <- (filter_enumerate_snd _ is_judged 0 (lines output)).
  rewrite !map_map. apply map_ext. intros [i line]. simpl.
  apply lstrip_space_indent.
Qed.

Lemma line_nums_sorted (p : nat * str -> bool) k ls :
  StronglySorted lt (map line_num (map record_of (filter p (combine (seq k (length ls)) ls))))
  /\ Forall (fun n => k < n) (map line_num (map record_of (filter p (combine (seq k (length ls)) ls)))).
Proof.
  revert k. induction ls as [|line ls IH]; intros k; simpl.
  - split; constructor.
  - destruct (IH (S k)) as [S1 F1].
    assert (F2 : Forall (fun n => k < n)
              (map line_num (map record_of (filter p (combine (seq (S k) (length ls)) ls))))).
    { eapply Forall_impl; [|exact F1]. simpl. lia. }
    destruct (p (k, line)); simpl.
    + split; constructor; auto; try lia.
      eapply Forall_impl; [|exact F1]. simpl. lia.
    + auto.
Qed.

(** ** The judge *)

Lemma bind_pair (A B : Type) log (a : A) (k : A -> M B) :
  bind (log, Return a) k = (log ++ fst (k a), snd (k a)).
Proof. unfold bind. destruct (k a). reflexivity. Qed.

Lemma bind_ret (A B : Type) (a : A) (k : A -> M B) : bind (ret a) k = k a.
Proof. unfold ret. rewrite bind_pair. destruct (k a). reflexivity. Qed.

Lemma bind_print (B : Type) e (k : unit -> M B) :
  bind (print e) k = (e :: fst (k tt), snd (k tt)).
Proof. unfold print. rewrite bind_pair. reflexivity. Qed.

Lemma for_each_run (A : Type) (f : A -> list event) (body : A -> M unit) l :
  (forall x, body x = (f x, Return tt)) ->
  for_each l body = (flat_map f l, Return tt).
Proof.
  intros H. induction l as [|x l IH]; [reflexivity|].
  cbn [for_each flat_map]. rewrite H, bind_pair, IH. reflexivity.
Qed.

Lemma last_indent_snoc pre p : last_indent (pre ++ [p]) = Some (leading_spaces p).
Proof. unfold last_indent. rewrite rev_app_distr. reflexivity. Qed.

Lemma nth_error_last (A : Type) (pre : list A) p l :
  nth_error ((pre ++ [p]) ++ l) (length (pre ++ [p]) - 1) = Some p.
Proof.
  rewrite length_app. cbn [length]. rewrite Nat.add_sub.
  rewrite <- app_assoc. rewrite nth_error_app2 by lia.
  rewrite Nat.sub_diag. reflexivity.
Qed.

(** Runs the leading [ret] and [print] of the computations in the goal. *)
Ltac run_bind :=
  repeat match goal with
         | |- context [bind (ret ?a) ?k] => rewrite (bind_ret _ _ a k)
         | |- context [bind (print ?e) ?k] => rewrite (bind_print _ e k)
         end;
  cbn [fst snd].

Lemma check_line_run pre tl l e b :
  check_line (pre ++ tl :: l) e (length pre, tl) b =
  ([classify (last_indent pre) e tl],
   Return (grows_over (last_indent pre) (leading_spaces tl) || b)).
Proof.
  unfold check_line, classify.
  destruct pre as [|p pre _] using rev_ind.
  - cbn [length Nat.ltb Nat.leb last_indent rev grows_over orb]. run_bind.
    destruct (leading_spaces tl =? e); cbn [negb]; run_bind; reflexivity.
  - assert (L : (0 <? length (pre ++ [p])) = true).
    { apply Nat.ltb_lt. rewrite length_app. simpl. lia. }
    rewrite L. unfold getitem. rewrite nth_error_last, last_indent_snoc.
    run_bind. cbn [grows_over].
    destruct (leading_spaces p <? leading_spaces tl).
    + run_bind. reflexivity.
    + cbn [orb]. destruct (leading_spaces tl =? e); cbn [negb]; run_bind; reflexivity.
Qed.

Lemma judge_loop_run pre l e b :
  for_loop (combine (seq (length pre) (length l)) l) (check_line (pre ++ l) e) b =
  (judge_log (last_indent pre) e l,
   Return (grows (last_indent pre) (map leading_spaces l) || b)).
Proof.
  revert pre b. induction l as [|tl l IH]; intros pre b; [reflexivity|].
  cbn [length seq combine for_loop judge_log map grows].
  rewrite check_line_run, bind_pair.
  specialize (IH (pre ++ [tl])).
  rewrite length_app, <- app_assoc, last_indent_snoc in IH.
  cbn [length app] in IH. rewrite Nat.add_1_r in IH.
  rewrite IH. cbn [fst snd app].
  f_equal. f_equal.
  destruct (grows_over (last_indent pre) (leading_spaces tl)),
    (grows (Some (leading_spaces tl)) (map leading_spaces l)), b; reflexivity.
Qed.

Lemma judge_run cl :
  for_loop (enumerate cl) (check_line cl (match cl with first :: _ => leading_spaces first | [] => 0 end)) false =
  (judge_log None (match cl with first :: _ => leading_spaces first | [] => 0 end) cl,
   Return (has_growth (map leading_spaces cl))).
Proof.
  unfold enumerate, has_growth.
  rewrite (judge_loop_run [] cl). rewrite orb_false_r. reflexivity.
Qed.

(** The run of the function: what it prints and what it returns. *)
Lemma analyze_run output :
  analyze_terminal_output output = (report output, Return (verdict output)).
Proof.
  unfold analyze_terminal_output, report, judge_report, verdict.
  run_bind.
  rewrite (for_each_run _ dump_line)
    by (intros [i line]; unfold dump_line; cbn [fst snd]; destruct (strip line); reflexivity).
  rewrite bind_pair. run_bind. cbn [app].
  destruct (test_lines output) as [|t0 ts] eqn:Et.
  - run_bind. unfold continuation_lines. rewrite Et. reflexivity.
  - rewrite (for_each_run _ echo_match)
      by (intros tl; unfold echo_match; run_bind; reflexivity).
    rewrite bind_pair. run_bind.
    destruct (continuation_lines output) as [|first [|second cl]] eqn:Ec.
    + cbn [length Nat.leb]. run_bind. reflexivity.
    + cbn [length Nat.leb]. run_bind. reflexivity.
    + cbn [length Nat.leb]. unfold getitem. cbn [nth_error]. run_bind.
      rewrite (judge_run (first :: second :: cl)), bind_pair.
      destruct (has_growth (map leading_spaces (first :: second :: cl))); cbn [negb].
      * run_bind. reflexivity.
      * run_bind. reflexivity.
Qed.

Lemma grows_adjacent prev l :
  grows prev l = true <->
  (exists p x, prev = Some p /\ nth_error l 0 = Some x /\ p < x)
  \/ (exists i a b, nth_error l i = Some a /\ nth_error l (S i) = Some b /\ a < b).
Proof.
  revert prev. induction l as [|n l IH]; intros prev; cbn [grows].
  - split; [discriminate|].
    intros [(p & x & _ & H & _) | (i & a & b & H & _)];
      [discriminate | destruct i; discriminate].
  - rewrite orb_true_iff, IH. split.
    + intros [H | [(p & x & E & H1 & H2) | (i & a & b & H1 & H2 & H3)]].
      * left. destruct prev as [p|]; [|discriminate].
        exists p, n. repeat split. apply Nat.ltb_lt. exact H.
      * right. injection E as <-. exists 0, n, x. auto.
      * right. exists (S i), a, b. auto.
    + intros [(p & x & -> & [= <-] & H) | (i & a & b & H1 & H2 & H3)].
      * left. apply Nat.ltb_lt. exact H.
      * right. destruct i as [|i].
        -- left. injection H1 as <-. exists n, b. auto.
        -- right. exists i, a, b. auto.
Qed.

Lemma has_growth_iff l :
  has_growth l = true <->
  exists i a b, nth_error l i = Some a /\ nth_error l (S i) = Some b /\ a < b.
Proof.
  unfold has_growth. rewrite grows_adjacent. split; [|auto].
  intros [(p & x & E & _) | H]; [discriminate | exact H].
Qed.

Lemma has_growth_false_iff l :
  has_growth l = false <->
  forall i a b, nth_error l i = Some a -> nth_error l (S i) = Some b -> b <= a.
Proof.
  rewrite <- not_true_iff_false, has_growth_iff. split.
  - intros H i a b Ha Hb. destruct (le_lt_dec b a) as [L|L]; [exact L|].
    exfalso. apply H. exists i, a, b. auto.
  - intros H (i & a & b & Ha & Hb & L). specialize (H i a b Ha Hb). lia.
Qed.

Lemma returns_verdict output b :
  snd (analyze_terminal_output output) = Return b <-> verdict output = b.
Proof.
  rewrite analyze_run. cbn [snd]. split; [intros [= E]; exact E | intros ->; reflexivity].
Qed.

Lemma judge_log_length prev e l : length (judge_log prev e l) = length l.
Proof.
  revert prev. induction l as [|tl l IH]; intros prev; [reflexivity|].
  cbn [judge_log length]. rewrite IH. reflexivity.
Qed.

Lemma judge_log_nth prev e l i tl :
  nth_error l i = Some tl ->
  nth_error (judge_log prev e l) i =
  Some (classify (match i with
                  | 0 => prev
                  | S j => option_map leading_spaces (nth_error l j)
                  end) e tl).
Proof.
  revert prev i. induction l as [|x l IH]; intros prev i H.
  - destruct i; discriminate.
  - destruct i as [|i]; cbn [judge_log nth_error] in *.
    + injection H as ->. reflexivity.
    + rewrite (IH _ _ H). destruct i; reflexivity.
Qed.

Lemma judge_log_judgements prev e l : judgements (judge_log prev e l) = judge_log prev e l.
Proof.
  revert prev. induction l as [|tl l IH]; intros prev; [reflexivity|].
  unfold judgements in *. cbn [judge_log filter].
  replace (is_judgement (classify prev e tl)) with true.
  - rewrite IH. reflexivity.
  - unfold classify. destruct (grows_over prev (leading_spaces tl)); [reflexivity|].
    destruct (leading_spaces tl =? e); reflexivity.
Qed.

Lemma judge_log_cumulative prev e l :
  existsb is_cumulative (judge_log prev e l) = grows prev (map leading_spaces l).
Proof.
  revert prev. induction l as [|tl l IH]; intros prev; [reflexivity|].
  cbn [judge_log existsb map grows]. rewrite IH. f_equal.
  unfold classify. destruct (grows_over prev (leading_spaces tl)); [reflexivity|].
  destruct (leading_spaces tl =? e); reflexivity.
Qed.

Lemma judge_log_ext prev e l1 l2 :
  map content l1 = map content l2 ->
  map leading_spaces l1 = map leading_spaces l2 ->
  judge_log prev e l1 = judge_log prev e l2.
Proof.
  revert prev l2. induction l1 as [|x l1 IH]; intros prev [|y l2] Hc Hl;
    try discriminate; [reflexivity|].
  cbn [map] in *. injection Hc as Hc1 Hc2. injection Hl as Hl1 Hl2.
  cbn [judge_log]. unfold classify. rewrite Hc1, Hl1, (IH _ l2 Hc2 Hl2). reflexivity.
Qed.

Lemma filter_none (A : Type) (p : A -> bool) l :
  (forall x, In x l -> p x = false) -> filter p l = [].
Proof.
  induction l as [|x l IH]; intros H; [reflexivity|].
  cbn [filter]. rewrite (H x (or_introl eq_refl)). apply IH.
  intros y Hy. apply H. right. exact Hy.
Qed.

Lemma dump_not_judged p :
  (forall n line len, p (PrintLine n line len) = false) ->
  forall ls, filter p (flat_map dump_line ls) = [].
Proof.
  intros Hp ls. apply filter_none. intros x [y [_ Hx]]%in_flat_map.
  unfold dump_line in Hx. destruct (strip (snd y)); [destruct Hx|].
  destruct Hx as [<-|[]]. apply Hp.
Qed.

Lemma echo_not_judged p :
  (forall n text spaces, p (PrintMatch n text spaces) = false) ->
  (forall raw, p (PrintRaw raw) = false) ->
  forall ls, filter p (flat_map echo_match ls) = [].
Proof.
  intros H1 H2 ls. apply filter_none. intros x [y [_ Hx]]%in_flat_map.
  destruct Hx as [<-|[<-|[]]]; [apply H1 | apply H2].
Qed.

(** The judgements of a run are those of the checking loop. *)
Lemma report_judgements output :
  judgements (report output) =
  match continuation_lines output with
  | first :: _ :: _ => judge_log None (leading_spaces first) (continuation_lines output)
  | _ => []
  end.
Proof.
  unfold judgements, report. cbn [app filter is_judgement].
  rewrite filter_app, dump_not_judged by reflexivity. cbn [app filter is_judgement].
  destruct (test_lines output) as [|t0 ts] eqn:Et.
  - unfold continuation_lines. rewrite Et. reflexivity.
  - rewrite filter_app, echo_not_judged by reflexivity. cbn [app filter is_judgement].
    unfold judge_report.
    destruct (continuation_lines output) as [|first [|second cl]]; try reflexivity.
    cbn [filter is_judgement]. rewrite filter_app.
    fold (judgements (judge_log None (leading_spaces first) (first :: second :: cl))).
    rewrite judge_log_judgements.
    destruct (verdict output); cbn [filter is_judgement]; apply app_nil_r.
Qed.

(** A cumulative-growth message is printed exactly when the verdict is set. *)
Lemma report_cumulative output :
  existsb is_cumulative (report output) = verdict output.
Proof.
  assert (N : forall l, filter is_cumulative l = [] -> existsb is_cumulative l = false).
  { induction l as [|x l IH]; [reflexivity|]. cbn [filter existsb].
    destruct (is_cumulative x); [discriminate | exact IH]. }
  unfold report. cbn [app existsb is_cumulative orb].
  rewrite existsb_app, (N _ (dump_not_judged is_cumulative ltac:(reflexivity) _)).
  cbn [app existsb is_cumulative orb].
  destruct (test_lines output) as [|t0 ts] eqn:Et.
  - unfold verdict, continuation_lines. rewrite Et. reflexivity.
  - rewrite existsb_app,
      (N _ (echo_not_judged is_cumulative ltac:(reflexivity) ltac:(reflexivity) _)).
    cbn [app existsb is_cumulative orb].
    unfold judge_report, verdict, has_growth.
    destruct (continuation_lines output) as [|first [|second cl]]; try reflexivity.
    cbn [existsb is_cumulative orb]. rewrite existsb_app, judge_log_cumulative.
    destruct (grows None (map leading_spaces (first :: second :: cl))); reflexivity.
Qed.

Lemma cumulative_printed log :
  existsb is_cumulative log = true <->
  exists text n p, In (PrintCumulative text n p) log.
Proof.
  rewrite existsb_exists. split.
  - intros [e [H1 H2]]. destruct e; try discriminate. eauto.
  - intros (text & n & p & H). eexists. split; [exact H | reflexivity].
Qed.

Lemma main_run output :
  main output = (report output, Raise (SystemExit (if verdict output then 1 else 0))).
Proof.
  unfold main. rewrite analyze_run, bind_pair. unfold sys_exit, raise.
  cbn [fst snd]. rewrite app_nil_r. reflexivity.
Qed.

Lemma well_formed_suffix a s : well_formed (a ++ s) = true -> well_formed s = true.
Proof.
  induction a as [|c a IH]; [auto|]. cbn [app well_formed].
  intros [_ H]%andb_true_iff. auto.
Qed.

Lemma well_formed_splice_free s : well_formed s = true -> splice_free s.
Proof.
  intros W a p m b E Hp Hm. rewrite E in W. apply well_formed_suffix in W.
  destruct (csi_starts_with_esc _ Hm) as [m' Em]. rewrite Em in W.
  assert (N : re_match ansi_escape (p ++ (ESC :: m') ++ b) = None).
  { destruct Hp as [->|[ds [-> F]]].
    - rewrite re_match_ansi. reflexivity.
    - cbn [app]. rewrite (match_after_params ds ESC _ F); reflexivity. }
  destruct Hp as [->|[ds [-> F]]]; cbn [app well_formed] in W;
    rewrite N.eqb_refl in W; cbn [app] in N; rewrite N in W; discriminate.
Qed.

Lemma has_token_iff line :
  has_token line = true <->
  exists token a b, In token TOKENS /\ line = a ++ token ++ b.
Proof.
  unfold has_token. rewrite existsb_exists. split.
  - intros (token & H1 & (a & b & H2)%contains_iff). eauto.
  - intros (token & a & b & H1 & H2). exists token. split; [exact H1|].
    apply contains_iff. eauto.
Qed.

Lemma judged_filter ls : filter is_judged ls = filter no_marker (filter has_token ls).
Proof. rewrite filter_filter. reflexivity. Qed.

Lemma judged_filter_swap ls : filter is_judged ls = filter has_token (filter no_marker ls).
Proof.
  rewrite filter_filter. apply filter_ext. intros x. apply andb_comm.
Qed.

Lemma continuation_contents output :
  map content (continuation_lines output) = map strip (filter is_judged (lines output)).
Proof.
  rewrite continuation_lines_eq. unfold enumerate.
  rewrite <- (filter_enumerate_snd _ is_judged 0 (lines output)).
  rewrite !map_map. reflexivity.
Qed.

Lemma continuation_raw_lines output :
  map raw_line (continuation_lines output) = filter is_judged (lines output).
Proof.
  rewrite continuation_lines_eq. unfold enumerate.
  rewrite <- (filter_enumerate_snd _ is_judged 0 (lines output)).
  rewrite !map_map. reflexivity.
Qed.

Lemma test_raw_lines output :
  map raw_line (test_lines output) = filter has_token (lines output).
Proof.
  unfold test_lines. rewrite locate_eq. unfold enumerate.
  rewrite <- (filter_enumerate_snd _ has_token 0 (lines output)).
  rewrite !map_map. reflexivity.
Qed.

Lemma judged_ext cl1 cl2 :
  map content cl1 = map content cl2 ->
  map leading_spaces cl1 = map leading_spaces cl2 ->
  match cl1 with
  | first :: _ :: _ => judge_log None (leading_spaces first) cl1
  | _ => []
  end =
  match cl2 with
  | first :: _ :: _ => judge_log None (leading_spaces first) cl2
  | _ => []
  end.
Proof.
  intros Hc Hl.
  destruct cl1 as [|a [|b l1]], cl2 as [|c [|d l2]]; try discriminate; try reflexivity.
  assert (E : leading_spaces a = leading_spaces c) by (injection Hl; auto).
  rewrite E. apply judge_log_ext; assumption.
Qed.

Lemma sorted_filter (A : Type) (f : A -> nat) (p : A -> bool) l :
  StronglySorted lt (map f l) -> StronglySorted lt (map f (filter p l)).
Proof.
  induction l as [|x l IH]; cbn [map filter]; intros H; [constructor|].
  apply StronglySorted_inv in H as [H1 H2].
  destruct (p x); cbn [map]; [|auto].
  constructor; [auto|].
  rewrite Forall_forall in *. intros n [y [<- [Hy _]%filter_In]]%in_map_iff.
  apply H2, in_map, Hy.
Qed.

(** * The claims *)

(** C1. When the continuation set has at least two records, the function
    returns True exactly when some record is indented more than the record
    just before it, and False exactly when no record is.  In particular the
    indentations 4,6,8 and 4,6,4 and 4,2,4 give a problem; 4,4,4 gives a
    clean verdict, and so does 4,2,2, whose deviations are inconsistent but
    never increasing. *)
Theorem verdict_iff_growth (output : str)
    (H : 2 <= length (continuation_lines output)) :
  (snd (analyze_terminal_output output) = Return true <->
   exists i a b,
     nth_error (map leading_spaces (continuation_lines output)) i = Some a
     /\ nth_error (map leading_spaces (continuation_lines output)) (S i) = Some b
     /\ a < b)
  /\ (snd (analyze_terminal_output output) = Return false <->
      forall i a b,
        nth_error (map leading_spaces (continuation_lines output)) i = Some a ->
        nth_error (map leading_spaces (continuation_lines output)) (S i) = Some b ->
        b <= a)
  /\ (In (map leading_spaces (continuation_lines output))
         [[4; 6; 8]; [4; 6; 4]; [4; 2; 4]] ->
      snd (analyze_terminal_output output) = Return true)
  /\ (In (map leading_spaces (continuation_lines output)) [[4; 4; 4]; [4; 2; 2]] ->
      snd (analyze_terminal_output output) = Return false).
Proof.
  rewrite !returns_verdict. unfold verdict.
  split; [apply has_growth_iff|]. split; [apply has_growth_false_iff|].
  split; intros E; cbn [In] in E;
    repeat (destruct E as [<-|E]; [reflexivity|]); destruct E.
Qed.

Lemma verdict_iff_growth_witness :
  2 <= length (continuation_lines (scenario 4 6 4))
  /\ snd (analyze_terminal_output (scenario 4 6 4)) = Return true.
Proof.
  assert (H : 2 <= length (continuation_lines (scenario 4 6 4)))
    by (vm_compute; lia).
  split; [exact H|].
  apply (verdict_iff_growth (scenario 4 6 4) H).
  vm_compute. auto.
Defined.

(** C2. The process ends with status 1 exactly when a cumulative-growth
    message was printed, which is exactly when some continuation record is
    indented more than the one before it; otherwise it ends with status 0,
    also when no line holds a token or fewer than two continuation records
    are left.  On the end-to-end input the continuation indentations are
    4,6,8, the verdict is a problem and the status is 1. *)
Theorem exit_status_iff_growth (output : str) :
  (exit_status (main output) = 1 <->
   exists text n p, In (PrintCumulative text n p) (fst (main output)))
  /\ (exit_status (main output) = 1 <->
      exists i a b,
        nth_error (map leading_spaces (continuation_lines output)) i = Some a
        /\ nth_error (map leading_spaces (continuation_lines output)) (S i) = Some b
        /\ a < b)
  /\ (exit_status (main output) <> 1 -> exit_status (main output) = 0)
  /\ (test_lines output = [] -> exit_status (main output) = 0)
  /\ (length (continuation_lines output) < 2 -> exit_status (main output) = 0)
  /\ map leading_spaces (continuation_lines end_to_end) = [4; 6; 8]
  /\ snd (analyze_terminal_output end_to_end) = Return true
  /\ exit_status (main end_to_end) = 1.
Proof.
  rewrite main_run. unfold exit_status. cbn [fst snd].
  assert (V : (if verdict output then 1 else 0) = 1 <-> verdict output = true)
    by (destruct (verdict output); split; congruence).
  split; [|split; [|split; [|split; [|split]]]].
  - rewrite V, <- cumulative_printed, report_cumulative. reflexivity.
  - rewrite V. apply has_growth_iff.
  - destruct (verdict output); congruence.
  - intros E. unfold verdict, continuation_lines. rewrite E. reflexivity.
  - intros L. unfold verdict.
    destruct (continuation_lines output) as [|x [|y l]]; try reflexivity.
    cbn [length] in L. lia.
  - repeat split; vm_compute; reflexivity.
Qed.

(** C5. When no line holds a recognition token, or fewer than two
    continuation records are left, the function returns False: it raises
    nothing, prints no judgement, and the last thing it prints is the
    informational message of the case. *)
Theorem insufficient_data_is_clean (output : str)
    (H : (forall line token,
            In line (lines output) -> In token TOKENS -> contains token line = false)
         \/ length (continuation_lines output) < 2) :
  snd (analyze_terminal_output output) = Return false
  /\ judgements (fst (analyze_terminal_output output)) = []
  /\ ((forall line token,
         In line (lines output) -> In token TOKENS -> contains token line = false) ->
      exists log, fst (analyze_terminal_output output) = log ++ [PrintNoTestContent])
  /\ (test_lines output <> [] -> length (continuation_lines output) < 2 ->
      exists log, fst (analyze_terminal_output output) = log ++ [PrintNotEnough]).
Proof.
  assert (T : (forall line token,
                 In line (lines output) -> In token TOKENS -> contains token line = false) ->
              test_lines output = []).
  { intros N. destruct (test_lines output) as [|tl ts] eqn:E; [reflexivity|].
    assert (I : In tl (locate (lines output))).
    { unfold test_lines in E. rewrite E. left. reflexivity. }
    apply in_locate in I as (i & line & Hi & Ht & _).
    apply nth_error_In in Hi. unfold has_token in Ht.
    apply existsb_exists in Ht as (token & H1 & H2).
    rewrite (N line token Hi H1) in H2. discriminate. }
  assert (L : length (continuation_lines output) < 2).
  { destruct H as [N|L]; [|exact L].
    unfold continuation_lines. rewrite (T N). cbn. lia. }
  rewrite returns_verdict, analyze_run. cbn [fst].
  split; [|split; [|split]].
  - unfold verdict.
    destruct (continuation_lines output) as [|x [|y l]]; try reflexivity.
    cbn [length] in L. lia.
  - rewrite report_judgements.
    destruct (continuation_lines output) as [|x [|y l]]; try reflexivity.
    cbn [length] in L. lia.
  - intros N. unfold report. rewrite (T N).
    rewrite !app_assoc. eexists. reflexivity.
  - intros NE _. unfold report, judge_report.
    destruct (test_lines output) as [|t0 ts]; [congruence|].
    destruct (continuation_lines output) as [|x [|y l]];
      try (cbn [length] in L; lia).
    + rewrite !app_assoc. eexists. reflexivity.
    + rewrite !app_assoc. eexists. reflexivity.
Qed.

Lemma insufficient_data_is_clean_witness :
  length (continuation_lines (sp 12 ++ lit "aaaa only")) < 2
  /\ snd (analyze_terminal_output (sp 12 ++ lit "aaaa only")) = Return false.
Proof.
  assert (H : length (continuation_lines (sp 12 ++ lit "aaaa only")) < 2)
    by (vm_compute; lia).
  split; [exact H|].
  apply (insufficient_data_is_clean (sp 12 ++ lit "aaaa only") (or_intror H)).
Defined.

(** C10. The verdict depends only on the indentations of the continuation
    set: two inputs whose continuation sets have the same sequence of
    leading-space counts get the same result. *)
Theorem verdict_depends_on_indents (o1 o2 : str)
    (H : map leading_spaces (continuation_lines o1) =
         map leading_spaces (continuation_lines o2)) :
  snd (analyze_terminal_output o1) = snd (analyze_terminal_output o2).
Proof.
  rewrite !analyze_run. cbn [snd]. unfold verdict. rewrite H. reflexivity.
Qed.

Lemma verdict_depends_on_indents_witness :
  map leading_spaces (continuation_lines (scenario 4 6 8)) =
  map leading_spaces (continuation_lines (with_marker_line 4 6 8))
  /\ snd (analyze_terminal_output (scenario 4 6 8)) =
     snd (analyze_terminal_output (with_marker_line 4 6 8)).
Proof.
  assert (H : map leading_spaces (continuation_lines (scenario 4 6 8)) =
              map leading_spaces (continuation_lines (with_marker_line 4 6 8)))
    by (vm_compute; reflexivity).
  split; [exact H|].
  apply (verdict_depends_on_indents (scenario 4 6 8) (with_marker_line 4 6 8) H).
Defined.

(** C3. With at least two continuation records, every record gets exactly
    one judgement, and the judge uses two baselines: a record after the
    first is a cumulative growth when it is indented more than the record
    just before it; only otherwise is it inconsistent, when its indentation
    differs from that of the first record, or else correct. *)
Theorem judge_uses_two_baselines (output : str)
    (H : 2 <= length (continuation_lines output)) :
  length (judgements (fst (analyze_terminal_output output)))
  = length (continuation_lines output)
  /\ forall i tl first,
       nth_error (continuation_lines output) i = Some tl ->
       nth_error (continuation_lines output) 0 = Some first ->
       (forall prev,
          0 < i -> nth_error (continuation_lines output) (i - 1) = Some prev ->
          leading_spaces prev < leading_spaces tl ->
          nth_error (judgements (fst (analyze_terminal_output output))) i
          = Some (PrintCumulative (content tl) (leading_spaces tl) (leading_spaces prev)))
       /\ ((i = 0 \/ exists prev,
                      nth_error (continuation_lines output) (i - 1) = Some prev
                      /\ leading_spaces tl <= leading_spaces prev) ->
           leading_spaces tl <> leading_spaces first ->
           nth_error (judgements (fst (analyze_terminal_output output))) i
           = Some (PrintInconsistent (content tl) (leading_spaces tl) (leading_spaces first)))
       /\ ((i = 0 \/ exists prev,
                      nth_error (continuation_lines output) (i - 1) = Some prev
                      /\ leading_spaces tl <= leading_spaces prev) ->
           leading_spaces tl = leading_spaces first ->
           nth_error (judgements (fst (analyze_terminal_output output))) i
           = Some (PrintCorrect (content tl) (leading_spaces tl))).
Proof.
  rewrite analyze_run. cbn [fst]. rewrite report_judgements.
  destruct (continuation_lines output) as [|first' [|second rest]] eqn:Ec;
    cbn [length] in H; try lia.
  set (cl := first' :: second :: rest) in *.
  split; [apply judge_log_length|].
  intros i tl first Hi H0. injection H0 as <-.
  rewrite (judge_log_nth None (leading_spaces first') cl i tl Hi).
  assert (Stay : forall prev : option nat,
            grows_over prev (leading_spaces tl) = false ->
            (leading_spaces tl <> leading_spaces first' ->
             classify prev (leading_spaces first') tl
             = PrintInconsistent (content tl) (leading_spaces tl) (leading_spaces first'))
            /\ (leading_spaces tl = leading_spaces first' ->
                classify prev (leading_spaces first') tl
                = PrintCorrect (content tl) (leading_spaces tl))).
  { intros prev G. unfold classify. rewrite G. split; intros E.
    - apply Nat.eqb_neq in E. rewrite E. reflexivity.
    - apply Nat.eqb_eq in E. rewrite E. reflexivity. }
  assert (Base : (i = 0 \/ exists prev,
                    nth_error cl (i - 1) = Some prev
                    /\ leading_spaces tl <= leading_spaces prev) ->
                 grows_over (match i with
                             | 0 => None
                             | S j => option_map leading_spaces (nth_error cl j)
                             end) (leading_spaces tl) = false).
  { intros [->|(prev & Hp & Hle)]; [reflexivity|].
    destruct i as [|j]; [reflexivity|].
    replace (S j - 1) with j in Hp by lia. rewrite Hp. cbn [option_map grows_over].
    apply Nat.ltb_ge. exact Hle. }
  split; [|split].
  - intros prev Hpos Hp Hlt. destruct i as [|j]; [lia|].
    replace (S j - 1) with j in Hp by lia. rewrite Hp. cbn [option_map].
    unfold classify, grows_over. apply Nat.ltb_lt in Hlt. rewrite Hlt. reflexivity.
  - intros B E. f_equal. apply (Stay _ (Base B)), E.
  - intros B E. f_equal. apply (Stay _ (Base B)), E.
Qed.

Lemma judge_uses_two_baselines_witness :
  2 <= length (continuation_lines (scenario 4 2 2))
  /\ nth_error (judgements (fst (analyze_terminal_output (scenario 4 2 2)))) 2
     = Some (PrintInconsistent (lit "cccc third") 2 4).
Proof.
  assert (H : 2 <= length (continuation_lines (scenario 4 2 2)))
    by (vm_compute; lia).
  split; [exact H|].
  destruct (judge_uses_two_baselines (scenario 4 2 2) H) as [_ J].
  destruct (J 2 {| line_num := 4; content := lit "cccc third"; leading_spaces := 2;
                   raw_line := sp 2 ++ lit "cccc third" |}
              {| line_num := 2; content := lit "aaaa first"; leading_spaces := 4;
                 raw_line := sp 4 ++ lit "aaaa first" |}
              eq_refl eq_refl) as (_ & I & _).
  apply I.
  - right. exists {| line_num := 3; content := lit "bbbb second"; leading_spaces := 2;
                     raw_line := sp 2 ++ lit "bbbb second" |}.
    split; [reflexivity | cbn; lia].
  - cbn. lia.
Defined.

(** C4. A line whose trimmed content holds the marker is left out of the
    continuation set even when it holds a recognition token, as the line
    "aaaa (marker) more" is; such lines take no part in the judgements and do
    not change the verdict: two inputs whose lines without marker are the
    same get the same judgements and the same result. *)
Theorem marker_lines_excluded (o1 o2 : str)
    (H : filter no_marker (lines o1) = filter no_marker (lines o2)) :
  (forall tl, In tl (test_lines o1) -> contains MARKER (content tl) = true ->
              ~ In tl (continuation_lines o1))
  /\ (forall tl, In tl (continuation_lines o1) ->
                 In tl (test_lines o1) /\ contains MARKER (content tl) = false)
  /\ map raw_line (continuation_lines o1) = filter has_token (filter no_marker (lines o1))
  /\ judgements (fst (analyze_terminal_output o1))
     = judgements (fst (analyze_terminal_output o2))
  /\ snd (analyze_terminal_output o1) = snd (analyze_terminal_output o2)
  /\ has_token (lit "aaaa " ++ MARKER ++ lit " more") = true
  /\ length (test_lines (lit "aaaa " ++ MARKER ++ lit " more")) = 1
  /\ continuation_lines (lit "aaaa " ++ MARKER ++ lit " more") = [].
Proof.
  assert (J : filter is_judged (lines o1) = filter is_judged (lines o2))
    by (rewrite !judged_filter_swap, H; reflexivity).
  assert (Hl : map leading_spaces (continuation_lines o1)
               = map leading_spaces (continuation_lines o2))
    by (rewrite !continuation_indents, J; reflexivity).
  assert (Hc : map content (continuation_lines o1) = map content (continuation_lines o2))
    by (rewrite !continuation_contents, J; reflexivity).
  split; [|split; [|split; [|split; [|split]]]].
  - intros tl _ M [_ C]%filter_In. unfold is_continuation in C.
    rewrite M in C. discriminate.
  - intros tl [I C]%filter_In. split; [exact I|].
    unfold is_continuation in C. apply negb_true_iff in C. exact C.
  - rewrite continuation_raw_lines. apply judged_filter_swap.
  - rewrite !analyze_run. cbn [fst]. rewrite !report_judgements.
    apply judged_ext; assumption.
  - rewrite !analyze_run. cbn [snd]. unfold verdict. rewrite Hl. reflexivity.
  - repeat split; vm_compute; reflexivity.
Qed.

Lemma marker_lines_excluded_witness :
  filter no_marker (lines (with_marker_line 4 4 4))
  = filter no_marker (lines (scenario 4 4 4))
  /\ snd (analyze_terminal_output (with_marker_line 4 4 4))
     = snd (analyze_terminal_output (scenario 4 4 4))
  /\ snd (analyze_terminal_output (with_marker_line 4 4 4)) = Return false.
Proof.
  assert (H : filter no_marker (lines (with_marker_line 4 4 4))
              = filter no_marker (lines (scenario 4 4 4)))
    by (vm_compute; reflexivity).
  split; [exact H|]. split.
  - apply (marker_lines_excluded (with_marker_line 4 4 4) (scenario 4 4 4) H).
  - vm_compute. reflexivity.
Defined.

(** C6, as the specification states it, fails: one pass over [spliced]
    leaves a control sequence, which a second pass removes. *)
Lemma sanitizer_not_idempotent :
  clean_output (clean_output spliced) <> clean_output spliced
  /\ ~ no_csi (clean_output spliced).
Proof.
  split.
  - vm_compute. discriminate.
  - intros N. apply (N [] (ESC :: lit "[m") []); [reflexivity|].
    exists [], 109%N. repeat split.
Qed.

(** C6, amended. On an input in which no unfinished control sequence (an
    escape character, possibly followed by '[' and digits or semicolons) is
    directly followed by a complete one, the sanitized text holds no control
    sequence and sanitizing it again changes nothing. *)
Theorem sanitizer_idempotent_without_splice (s : str) (H : splice_free s) :
  no_csi (clean_output s)
  /\ clean_output (clean_output s) = clean_output s.
Proof.
  pose proof (clean_splice_free_no_csi s H) as N.
  split; [exact N | apply clean_no_csi, N].
Qed.

Lemma sanitizer_idempotent_without_splice_witness :
  splice_free end_to_end
  /\ clean_output (clean_output end_to_end) = clean_output end_to_end.
Proof.
  assert (H : splice_free end_to_end)
    by (apply well_formed_splice_free; vm_compute; reflexivity).
  split; [exact H|].
  apply (sanitizer_idempotent_without_splice end_to_end H).
Defined.

(** C7. The sanitizer removes exactly the control sequences: the input is
    a run of kept pieces that hold no control sequence, with a control
    sequence between each two, and the result is the kept pieces in order;
    a control sequence anywhere in the input is gone from the result, and
    an input without any is returned unchanged. *)
Theorem sanitizer_removes_exactly (s : str) :
  (exists u0 rest,
     s = weave u0 rest /\ clean_output s = kept u0 rest /\ no_csi u0
     /\ Forall (fun x => is_csi (fst x) /\ no_csi (snd x)) rest)
  /\ (forall a m b, s = a ++ m ++ b -> is_csi m ->
                    clean_output s = clean_output a ++ clean_output b)
  /\ (no_csi s -> clean_output s = s).
Proof.
  split; [apply clean_decomposition|]. split.
  - intros a m b -> Hm. apply clean_csi_removed, Hm.
  - apply clean_no_csi.
Qed.

Lemma sanitizer_removes_exactly_witness :
  clean_output (sp 4 ++ MARKER ++ ESC :: lit "[1;32m" ++ lit "aaaa" ++ [TAB])
  = sp 4 ++ MARKER ++ lit "aaaa" ++ [TAB].
Proof.
  destruct (sanitizer_removes_exactly
              (sp 4 ++ MARKER ++ ESC :: lit "[1;32m" ++ lit "aaaa" ++ [TAB]))
    as (_ & R & _).
  rewrite (R (sp 4 ++ MARKER) (ESC :: lit "[1;32m") (lit "aaaa" ++ [TAB])).
  - vm_compute. reflexivity.
  - vm_compute. reflexivity.
  - exists (lit "1;32"), 109%N. repeat split.
Defined.

(** C8. The line numbers of the match records increase strictly, and the
    records are the matching lines of the sanitized text in their order of
    appearance, each under its own 1-based line number; the continuation
    set keeps that order. *)
Theorem match_records_in_order (output : str) :
  StronglySorted lt (map line_num (test_lines output))
  /\ join NEWLINE (lines output) = clean_output output
  /\ map raw_line (test_lines output) = filter has_token (lines output)
  /\ (forall tl, In tl (test_lines output) ->
                 1 <= line_num tl
                 /\ nth_error (lines output) (line_num tl - 1) = Some (raw_line tl))
  /\ StronglySorted lt (map line_num (continuation_lines output))
  /\ map raw_line (continuation_lines output)
     = filter no_marker (filter has_token (lines output))
  /\ (forall tl, In tl (continuation_lines output) -> In tl (test_lines output)).
Proof.
  assert (S1 : StronglySorted lt (map line_num (test_lines output))).
  { unfold test_lines. rewrite locate_eq. unfold enumerate. apply line_nums_sorted. }
  split; [exact S1|]. split; [apply join_split|]. split; [apply test_raw_lines|].
  split; [|split; [|split]].
  - intros tl (i & line & Hi & _ & ->)%in_locate. cbn [record_of line_num raw_line fst snd].
    split; [lia|]. rewrite Nat.add_sub. exact Hi.
  - apply sorted_filter, S1.
  - rewrite continuation_raw_lines. apply judged_filter.
  - intros tl [I _]%filter_In. exact I.
Qed.

Lemma match_records_in_order_witness :
  map line_num (test_lines end_to_end) = [2; 3; 4]
  /\ StronglySorted lt (map line_num (test_lines end_to_end)).
Proof.
  split; [vm_compute; reflexivity|].
  apply (match_records_in_order end_to_end).
Defined.

(** C9. A line gets a match record exactly when one of 'aaaa', 'bbbb',
    'cccc', 'dddd' occurs in it, character for character; the record holds
    the 1-based line number, the line itself, the number of space
    characters the line starts with (the next character is not a space: a
    tab ends the count) and the line without the white space at its ends. *)
Theorem locator_records (output : str) (i : nat) (line : str)
    (H : nth_error (lines output) i = Some line) :
  ((exists tl, In tl (test_lines output) /\ line_num tl = i + 1) <->
   exists token a b, In token TOKENS /\ line = a ++ token ++ b)
  /\ (forall tl,
        In tl (test_lines output) -> line_num tl = i + 1 ->
        raw_line tl = line
        /\ (exists rest,
              line = repeat SPACE (leading_spaces tl) ++ rest
              /\ forall r, rest <> SPACE :: r)
        /\ (exists ws1 ws2,
              line = ws1 ++ content tl ++ ws2
              /\ forallb isspace ws1 = true /\ forallb isspace ws2 = true
              /\ (forall c r, content tl = c :: r -> isspace c = false)
              /\ (forall r c, content tl = r ++ [c] -> isspace c = false)))
  /\ TOKENS = [lit "aaaa"; lit "bbbb"; lit "cccc"; lit "dddd"]
  /\ has_token (lit "AAAA Bbbb") = false
  /\ map leading_spaces (test_lines (sp 2 ++ [TAB] ++ sp 3 ++ lit "aaaa")) = [2].
Proof.
  assert (R : forall tl, In tl (test_lines output) -> line_num tl = i + 1 ->
                         tl = record_of (i, line) /\ has_token line = true).
  { intros tl (j & line' & Hj & Ht & ->)%in_locate E.
    cbn [record_of line_num fst] in E.
    assert (j = i) by lia. subst j.
    rewrite H in Hj. injection Hj as <-. auto. }
  split; [|split].
  - rewrite <- has_token_iff. split.
    + intros (tl & I & E). apply (R tl I E).
    + intros T. exists (record_of (i, line)). split; [|reflexivity].
      apply in_locate. exists i, line. auto.
  - intros tl I E. destruct (R tl I E) as [-> _].
    cbn [record_of raw_line leading_spaces content fst snd].
    split; [reflexivity|]. split.
    + rewrite lstrip_space_indent. apply indent_spec.
    + apply strip_spec.
  - repeat split; vm_compute; reflexivity.
Qed.

Lemma locator_records_witness :
  nth_error (lines end_to_end) 2 = Some (sp 6 ++ lit "bbbb second")
  /\ exists tl, In tl (test_lines end_to_end) /\ line_num tl = 2 + 1.
Proof.
  assert (H : nth_error (lines end_to_end) 2 = Some (sp 6 ++ lit "bbbb second"))
    by (vm_compute; reflexivity).
  split; [exact H|].
  apply (locator_records end_to_end 2 (sp 6 ++ lit "bbbb second") H).
  exists (lit "bbbb"), (sp 6), (lit " second"). split; [|reflexivity].
  right. left. reflexivity.
Defined.

Lemma exit_status_iff_growth_witness : exit_status (main end_to_end) = 1.
Proof. apply (exit_status_iff_growth end_to_end). Defined.

(** * Further properties of the code *)

(** ** The sanitizer and the lines *)

Lemma clean_subset s c : In c (clean_output s) -> In c s.
Proof.
  revert c.
  apply (clean_ind (fun s out => forall c, In c out -> In c s)).
  - auto.
  - intros x t r E IH c Hc. apply match_csi_iff in E as [m [_ E]].
    rewrite E. apply in_or_app. right. apply IH, Hc.
  - intros x t _ IH c [->|Hc]; [left; reflexivity | right; apply IH, Hc].
Qed.

Lemma split_one sep a : ~ In sep a -> split sep a = [a].
Proof.
  induction a as [|c a IH]; intros N; [reflexivity|]. cbn [split].
  destruct (N.eqb_spec c sep) as [->|_]; [exfalso; apply N; left; reflexivity|].
  rewrite IH; [reflexivity|]. intros I. apply N. right. exact I.
Qed.

Lemma split_app sep a b : split sep (a ++ sep :: b) = split sep a ++ split sep b.
Proof.
  induction a as [|c a IH]; cbn [app split].
  - rewrite N.eqb_refl. reflexivity.
  - rewrite IH. destruct (c =? sep)%N; [reflexivity|].
    pose proof (split_not_nil sep a) as NE.
    destruct (split sep a) as [|l ls]; [congruence | reflexivity].
Qed.

Lemma split_join sep ls :
  ls <> [] -> Forall (fun l => ~ In sep l) ls -> split sep (join sep ls) = ls.
Proof.
  induction ls as [|l ls IH]; intros NE F; [congruence|].
  apply Forall_cons_iff in F as [Hl F]. cbn [join].
  destruct ls as [|l2 ls]; [apply split_one, Hl|].
  rewrite split_app, (split_one _ _ Hl), IH; [reflexivity | discriminate | exact F].
Qed.

Lemma clean_newline s : clean_output (NEWLINE :: s) = NEWLINE :: clean_output s.
Proof. apply clean_keep. rewrite re_match_ansi. destruct s; reflexivity. Qed.

Lemma clean_join ls :
  clean_output (join NEWLINE ls) = join NEWLINE (map clean_output ls).
Proof.
  induction ls as [|l ls IH]; [reflexivity|]. cbn [join map].
  destruct ls as [|l2 ls]; [reflexivity|].
  rewrite clean_app_barrier by reflexivity.
  rewrite clean_newline, IH. reflexivity.
Qed.

(** X1. Sanitizing never touches a line break: the lines the analysis
    works on are the lines of the raw input, each sanitized on its own, so
    the line numbers it reports are those of the raw input. *)
Theorem lines_of_raw_input (output : str) :
  lines output = map clean_output (split NEWLINE output)
  /\ length (lines output) = length (split NEWLINE output).
Proof.
  assert (E : lines output = map clean_output (split NEWLINE output)).
  { unfold lines. rewrite <- (join_split NEWLINE output) at 1.
    rewrite clean_join. apply split_join.
    - pose proof (split_not_nil NEWLINE output) as NE.
      destruct (split NEWLINE output); [congruence | discriminate].
    - apply Forall_forall. intros l [x [<- Hx]]%in_map_iff I.
      apply clean_subset in I.
      pose proof (split_no_sep NEWLINE output) as F.
      rewrite Forall_forall in F. apply (F x Hx I). }
  split; [exact E|]. rewrite E. apply length_map.
Qed.

(** X2. The sanitizer deletes nothing but characters of control sequences:
    a character that is neither the escape character, '[', a digit, a
    semicolon nor a letter occurs in the sanitized text as often as in the
    raw text. *)
Theorem sanitizer_keeps_other_characters (s : str) (c : char)
    (H : (c =? ESC)%N || (c =? LBRACKET)%N || is_digit_or_semicolon c || is_letter c
         = false) :
  count_occ N.eq_dec (clean_output s) c = count_occ N.eq_dec s c.
Proof.
  apply orb_false_iff in H as [H Hl]. apply orb_false_iff in H as [H Hd].
  apply orb_false_iff in H as [He Hb].
  apply N.eqb_neq in He, Hb.
  apply (clean_ind (fun s out => count_occ N.eq_dec out c = count_occ N.eq_dec s c)).
  - reflexivity.
  - intros x t r E IH. apply match_csi_iff in E as [m [Hm E]].
    rewrite E, count_occ_app, IH.
    match goal with |- _ = ?n + _ => assert (Z : n = 0) end.
    { apply count_occ_not_In. destruct Hm as (ds & l & -> & F & L).
      intros [I|[I|I]]; [congruence | congruence |].
      apply in_app_or in I as [I|[<-|[]]]; [|congruence].
      rewrite forallb_forall in F. rewrite (F c I) in Hd. discriminate. }
    rewrite Z. reflexivity.
  - intros x t _ IH. cbn [count_occ]. destruct (N.eq_dec x c); rewrite IH; reflexivity.
Qed.

Lemma sanitizer_keeps_other_characters_witness :
  count_occ N.eq_dec (clean_output end_to_end) SPACE = count_occ N.eq_dec end_to_end SPACE
  /\ count_occ N.eq_dec end_to_end SPACE = 22.
Proof.
  split; [|vm_compute; reflexivity].
  apply (sanitizer_keeps_other_characters end_to_end SPACE). reflexivity.
Defined.

(** X3. The sanitized text is never longer than the raw text, and it has
    the same length only when nothing was removed. *)
Theorem sanitizer_never_lengthens (s : str) :
  length (clean_output s) <= length s
  /\ (length (clean_output s) = length s -> clean_output s = s).
Proof.
  apply (clean_ind (fun s out => length out <= length s
                                 /\ (length out = length s -> out = s))).
  - split; [lia | reflexivity].
  - intros c t r E [IH _]. apply match_shorter in E. split; lia.
  - intros c t _ [IH1 IH2]. cbn [length]. split; [lia|].
    intros L. f_equal. apply IH2. lia.
Qed.

(** ** The locator *)

Lemma startswith_space needle c t :
  needle <> [] -> forallb (fun x => negb (isspace x)) needle = true ->
  isspace c = true -> startswith needle (c :: t) = false.
Proof.
  intros NE F Hc. destruct needle as [|n0 needle]; [congruence|].
  cbn [startswith forallb] in *. apply andb_true_iff in F as [F _].
  destruct (N.eqb_spec n0 c) as [->|_]; [|reflexivity].
  rewrite Hc in F. discriminate.
Qed.

Lemma contains_lstrip_ws needle s :
  needle <> [] -> forallb (fun x => negb (isspace x)) needle = true ->
  contains needle (lstrip_ws s) = contains needle s.
Proof.
  intros NE F. induction s as [|c t IH]; [reflexivity|].
  cbn [lstrip_ws]. destruct (isspace c) eqn:Hc; [|reflexivity].
  rewrite IH. cbn [contains]. rewrite (startswith_space needle c t NE F Hc). reflexivity.
Qed.

Lemma contains_rev needle s : contains (rev needle) (rev s) = contains needle s.
Proof.
  apply eq_true_iff_eq. rewrite !contains_iff. split; intros (a & b & E).
  - exists (rev b), (rev a). apply (f_equal (@rev char)) in E.
    rewrite rev_involutive, !rev_app_distr, rev_involutive, <- app_assoc in E. exact E.
  - exists (rev b), (rev a). rewrite E, !rev_app_distr, <- app_assoc. reflexivity.
Qed.

Lemma contains_strip needle s :
  needle <> [] -> forallb (fun x => negb (isspace x)) needle = true ->
  contains needle (strip s) = contains needle s.
Proof.
  intros NE F. unfold strip, rstrip_ws.
  rewrite <- contains_rev, rev_involutive.
  rewrite contains_lstrip_ws, contains_rev.
  - apply contains_lstrip_ws; assumption.
  - intros E. apply (f_equal (@rev char)) in E. rewrite rev_involutive in E. auto.
  - rewrite forallb_forall in *. intros x Hx. apply F, in_rev, Hx.
Qed.

Lemma has_token_strip line : has_token (strip line) = has_token line.
Proof.
  unfold has_token, TOKENS. cbn [existsb].
  rewrite !contains_strip; reflexivity || discriminate.
Qed.

Lemma lstrip_ws_length s : length (lstrip_ws s) <= length s.
Proof.
  induction s as [|c t IH]; cbn [lstrip_ws length]; [lia|].
  destruct (isspace c); cbn [length]; lia.
Qed.

Lemma indent_lstrip_ws s : indent s + length (lstrip_ws s) <= length s.
Proof.
  induction s as [|c t IH]; cbn [indent lstrip_ws length]; [lia|].
  destruct (N.eqb_spec c SPACE) as [->|_].
  - change (isspace SPACE) with true. cbn iota. lia.
  - pose proof (lstrip_ws_length (c :: t)) as L. cbn [lstrip_ws length] in L. lia.
Qed.

Lemma strip_length s : length (strip s) <= length (lstrip_ws s).
Proof.
  unfold strip, rstrip_ws. rewrite length_rev.
  pose proof (lstrip_ws_length (rev (lstrip_ws s))) as L.
  rewrite length_rev in L. exact L.
Qed.

(** X4. Trimming a line changes neither the token test nor the marker
    test: the content of every match record still holds a recognition
    token, so it has at least four characters, and it holds the marker
    exactly when the raw line does. *)
Theorem records_hold_their_token (output : str) (tl : test_line)
    (H : In tl (test_lines output)) :
  has_token (content tl) = true
  /\ contains MARKER (content tl) = contains MARKER (raw_line tl)
  /\ 4 <= length (content tl).
Proof.
  apply in_locate in H as (i & line & _ & T & ->).
  cbn [record_of content raw_line snd].
  assert (T' : has_token (strip line) = true) by (rewrite has_token_strip; exact T).
  split; [exact T'|]. split.
  - apply contains_strip; [discriminate | reflexivity].
  - apply has_token_iff in T' as (token & a & b & I & E).
    rewrite E, !length_app.
    assert (L : length token = 4).
    { destruct I as [<-|[<-|[<-|[<-|[]]]]]; reflexivity. }
    lia.
Qed.

Lemma records_hold_their_token_witness :
  In {| line_num := 3; content := lit "bbbb second"; leading_spaces := 6;
        raw_line := sp 6 ++ lit "bbbb second" |} (test_lines end_to_end)
  /\ has_token (lit "bbbb second") = true.
Proof.
  assert (H : In {| line_num := 3; content := lit "bbbb second"; leading_spaces := 6;
                    raw_line := sp 6 ++ lit "bbbb second" |} (test_lines end_to_end))
    by (right; left; reflexivity).
  split; [exact H|].
  apply (records_hold_their_token end_to_end _ H).
Defined.

(** X5. In every match record the leading spaces and the content fit in
    the raw line together: the spaces counted are among the white space
    that trimming removes, so indentation plus content length never exceeds
    the length of the line. *)
Theorem indentation_fits_line (output : str) (tl : test_line)
    (H : In tl (test_lines output)) :
  leading_spaces tl + length (content tl) <= length (raw_line tl)
  /\ leading_spaces tl + 4 <= length (raw_line tl).
Proof.
  pose proof (records_hold_their_token output tl H) as (_ & _ & L4).
  apply in_locate in H as (i & line & _ & _ & ->).
  cbn [record_of content raw_line leading_spaces snd] in *.
  rewrite lstrip_space_indent.
  pose proof (indent_lstrip_ws line). pose proof (strip_length line). lia.
Qed.

Lemma indentation_fits_line_witness :
  In {| line_num := 4; content := lit "cccc third"; leading_spaces := 8;
        raw_line := sp 8 ++ lit "cccc third" |} (test_lines end_to_end)
  /\ 8 + length (lit "cccc third") <= length (sp 8 ++ lit "cccc third").
Proof.
  assert (H : In {| line_num := 4; content := lit "cccc third"; leading_spaces := 8;
                    raw_line := sp 8 ++ lit "cccc third" |} (test_lines end_to_end))
    by (right; right; left; reflexivity).
  split; [exact H|].
  apply (indentation_fits_line end_to_end _ H).
Defined.

(** ** Analysing two texts in a row *)

Lemma has_growth_app_l l1 l2 : has_growth l1 = true -> has_growth (l1 ++ l2) = true.
Proof.
  rewrite !has_growth_iff. intros (i & a & b & Ha & Hb & L).
  exists i, a, b. repeat split; [| |exact L].
  - rewrite nth_error_app1; [exact Ha|]. apply nth_error_Some. congruence.
  - rewrite nth_error_app1; [exact Hb|]. apply nth_error_Some. congruence.
Qed.

Lemma has_growth_app_r l1 l2 : has_growth l2 = true -> has_growth (l1 ++ l2) = true.
Proof.
  rewrite !has_growth_iff. intros (i & a & b & Ha & Hb & L).
  exists (length l1 + i), a, b. repeat split; [| |exact L].
  - rewrite nth_error_app2 by lia. replace (length l1 + i - length l1) with i by lia.
    exact Ha.
  - rewrite nth_error_app2 by lia.
    replace (S (length l1 + i) - length l1) with (S i) by lia. exact Hb.
Qed.

(** X6. Analysing one text followed, after a line break, by another: the
    lines are those of the first text followed by those of the second, and
    so are the indentations of the continuation set; a problem found in
    either text alone is still found in the two together. *)
Theorem analysis_of_concatenation (a b : str) :
  lines (a ++ NEWLINE :: b) = lines a ++ lines b
  /\ map leading_spaces (continuation_lines (a ++ NEWLINE :: b))
     = map leading_spaces (continuation_lines a)
       ++ map leading_spaces (continuation_lines b)
  /\ (snd (analyze_terminal_output a) = Return true
      \/ snd (analyze_terminal_output b) = Return true ->
      snd (analyze_terminal_output (a ++ NEWLINE :: b)) = Return true).
Proof.
  assert (E : lines (a ++ NEWLINE :: b) = lines a ++ lines b).
  { rewrite !(proj1 (lines_of_raw_input _)), split_app. apply map_app. }
  assert (I : map leading_spaces (continuation_lines (a ++ NEWLINE :: b))
              = map leading_spaces (continuation_lines a)
                ++ map leading_spaces (continuation_lines b)).
  { rewrite !continuation_indents, E, filter_app. apply map_app. }
  split; [exact E|]. split; [exact I|].
  rewrite !returns_verdict. unfold verdict. rewrite I.
  intros [V|V]; [apply has_growth_app_l | apply has_growth_app_r]; exact V.
Qed.

Lemma analysis_of_concatenation_witness :
  snd (analyze_terminal_output (scenario 4 4 4 ++ NEWLINE :: scenario 4 6 4))
  = Return true.
Proof.
  apply (analysis_of_concatenation (scenario 4 4 4) (scenario 4 6 4)).
  right. vm_compute. reflexivity.
Defined.

(** ** What is printed *)

Lemma in_dump ls e :
  In e (flat_map dump_line (enumerate ls)) <->
  exists i line, nth_error ls i = Some line /\ strip line <> []
                 /\ e = PrintLine (i + 1) line (length line).
Proof.
  rewrite in_flat_map. split.
  - intros [[i line] [I%in_enumerate D]]. unfold dump_line in D. cbn [fst snd] in D.
    exists i, line. destruct (strip line) eqn:S; [destruct D|].
    destruct D as [<-|[]]. repeat split; [exact I | discriminate].
  - intros (i & line & I & S & ->). exists (i, line).
    split; [apply in_enumerate, I|]. unfold dump_line. cbn [fst snd].
    destruct (strip line); [congruence | left; reflexivity].
Qed.

Lemma in_echo tls e :
  In e (flat_map echo_match tls) <->
  exists tl, In tl tls
             /\ (e = PrintMatch (line_num tl) (content tl) (leading_spaces tl)
                 \/ e = PrintRaw (raw_line tl)).
Proof.
  rewrite in_flat_map. split.
  - intros [tl [I [<-|[<-|[]]]]]; eauto.
  - intros (tl & I & [->| ->]); exists tl; (split; [exact I|]);
      [left | right; left]; reflexivity.
Qed.

Lemma judge_log_sound prev expected l e :
  In e (judge_log prev expected l) ->
  match e with
  | PrintCumulative _ n p => p < n
  | PrintInconsistent _ n x => x = expected /\ n <> expected
  | PrintCorrect _ n => n = expected
  | _ => False
  end.
Proof.
  revert prev. induction l as [|tl l IH]; intros prev; [intros []|].
  cbn [judge_log]. intros [<-|I]; [|apply (IH _ I)].
  unfold classify. destruct prev as [p|]; cbn [grows_over].
  - destruct (Nat.ltb_spec p (leading_spaces tl)); [assumption|].
    destruct (Nat.eqb_spec (leading_spaces tl) expected); auto.
  - destruct (Nat.eqb_spec (leading_spaces tl) expected); auto.
Qed.

Lemma in_report output e :
  In e (report output) <->
  e = PrintAnalysisHeader \/ e = PrintRawLength (length output)
  \/ e = PrintCleanedHeader
  \/ In e (flat_map dump_line (enumerate (lines output)))
  \/ e = PrintTestHeader
  \/ (test_lines output = [] /\ e = PrintNoTestContent)
  \/ (test_lines output <> []
      /\ (In e (flat_map echo_match (test_lines output))
          \/ e = PrintCheckHeader
          \/ e = PrintFound (length (continuation_lines output))
          \/ In e (judge_report output))).
Proof.
  unfold report. cbn [app In]. rewrite in_app_iff. cbn [app In].
  destruct (test_lines output) as [|t0 ts].
  - cbn [In]. intuition (try congruence).
  - rewrite in_app_iff. cbn [app In]. intuition (try congruence).
Qed.

Lemma in_judge_report output e :
  In e (judge_report output) <->
  match continuation_lines output with
  | first :: _ :: _ =>
      e = PrintExpected (leading_spaces first)
      \/ In e (judge_log None (leading_spaces first) (continuation_lines output))
      \/ (verdict output = false /\ e = PrintNoCumulative)
  | _ => e = PrintNotEnough
  end.
Proof.
  unfold judge_report.
  destruct (continuation_lines output) as [|first [|second cl]].
  - cbn [In]. intuition congruence.
  - cbn [In]. intuition congruence.
  - cbn [In]. rewrite in_app_iff.
    destruct (verdict output); cbn [In]; intuition congruence.
Qed.


Lemma judge_events_in_judge_report output e :
  match e with
  | PrintCumulative _ _ _ | PrintInconsistent _ _ _ | PrintCorrect _ _
  | PrintExpected _ | PrintNoCumulative | PrintNotEnough => True
  | _ => False
  end ->
  In e (report output) -> In e (judge_report output).
Proof.
  intros K H. apply in_report in H.
  destruct H as [H|[H|[H|[H|[H|[H|H]]]]]].
  - subst e. destruct K.
  - subst e. destruct K.
  - subst e. destruct K.
  - apply in_dump in H as (i & line & _ & _ & ->). destruct K.
  - subst e. destruct K.
  - destruct H as [_ ->]. destruct K.
  - destruct H as [_ [H|[H|[H|H]]]].
    + apply in_echo in H as (tl & _ & [->| ->]); destruct K.
    + subst e. destruct K.
    + subst e. destruct K.
    + exact H.
Qed.



Lemma judge_log_all_correct prev expected l :
  prev = None \/ prev = Some expected ->
  ((forall e, In e (judge_log prev expected l) -> exists text n, e = PrintCorrect text n)
   <-> forall tl, In tl l -> leading_spaces tl = expected).
Proof.
  revert prev. induction l as [|tl l IH]; intros prev P.
  - split; intros _ ? [].
  - cbn [judge_log]. split.
    + intros A x [<-|I].
      * destruct (A _ (or_introl eq_refl)) as (text & n & C).
        unfold classify in C.
        destruct (grows_over prev (leading_spaces tl)); [discriminate|].
        destruct (Nat.eqb_spec (leading_spaces tl) expected); [assumption | discriminate].
      * assert (E : leading_spaces tl = expected).
        { destruct (A _ (or_introl eq_refl)) as (text & n & C).
          unfold classify in C.
          destruct (grows_over prev (leading_spaces tl)); [discriminate|].
          destruct (Nat.eqb_spec (leading_spaces tl) expected); [assumption | discriminate]. }
        rewrite E in A.
        apply (IH (Some expected) (or_intror eq_refl)); [|exact I].
        intros e Ie. apply A. right. exact Ie.
    + intros A e [<-|I].
      * unfold classify. rewrite (A tl (or_introl eq_refl)).
        assert (G : grows_over prev expected = false).
        { destruct P as [->| ->]; [reflexivity | apply Nat.ltb_irrefl]. }
        rewrite G, Nat.eqb_refl. eauto.
      * rewrite (A tl (or_introl eq_refl)) in I.
        apply (IH (Some expected) (or_intror eq_refl)) in I; [exact I|].
        intros x Ix. apply A. right. exact Ix.
Qed.

(** X9. With at least two continuation records, every judgement printed is
    "correct" exactly when all continuation records have the same
    indentation. *)
Theorem all_correct_iff_uniform (output : str)
    (H : 2 <= length (continuation_lines output)) :
  (forall e, In e (judgements (fst (analyze_terminal_output output))) ->
             exists text n, e = PrintCorrect text n)
  <-> (forall a b,
         In a (map leading_spaces (continuation_lines output)) ->
         In b (map leading_spaces (continuation_lines output)) -> a = b).
Proof.
  rewrite analyze_run. cbn [fst]. rewrite report_judgements.
  destruct (continuation_lines output) as [|first [|second rest]];
    cbn [length] in H; try lia.
  set (cl := first :: second :: rest).
  rewrite (judge_log_all_correct None (leading_spaces first) cl (or_introl eq_refl)).
  split.
  - intros A a b [x [<- Ix]]%in_map_iff [y [<- Iy]]%in_map_iff.
    rewrite (A x Ix), (A y Iy). reflexivity.
  - intros A tl I. apply A; apply in_map; [exact I | left; reflexivity].
Qed.

Lemma all_correct_iff_uniform_witness :
  2 <= length (continuation_lines (scenario 4 4 4))
  /\ forall e, In e (judgements (fst (analyze_terminal_output (scenario 4 4 4)))) ->
               exists text n, e = PrintCorrect text n.
Proof.
  assert (H : 2 <= length (continuation_lines (scenario 4 4 4))) by (vm_compute; lia).
  split; [exact H|].
  apply (all_correct_iff_uniform (scenario 4 4 4) H).
  vm_compute. intros a b [<-|[<-|[<-|[]]]] [<-|[<-|[<-|[]]]]; reflexivity.
Defined.

(** X10. The message that no cumulative problem was detected is printed
    exactly when at least two continuation records were judged and the
    result is False; with fewer records the result is False without that
    message, and the message never appears beside a cumulative-growth
    message. *)
Theorem no_problem_message (output : str) :
  (In PrintNoCumulative (fst (analyze_terminal_output output)) <->
   2 <= length (continuation_lines output)
   /\ snd (analyze_terminal_output output) = Return false)
  /\ ~ (In PrintNoCumulative (fst (analyze_terminal_output output))
        /\ exists text n p,
             In (PrintCumulative text n p) (fst (analyze_terminal_output output))).
Proof.
  assert (A : In PrintNoCumulative (fst (analyze_terminal_output output)) <->
              2 <= length (continuation_lines output)
              /\ snd (analyze_terminal_output output) = Return false).
  { rewrite returns_verdict, analyze_run. cbn [fst]. split.
    - intros I. apply judge_events_in_judge_report in I; [|exact Logic.I].
      apply in_judge_report in I.
      destruct (continuation_lines output) as [|first [|second cl]]; try discriminate.
      destruct I as [I|[I|[V _]]]; [discriminate| |].
      + apply judge_log_sound in I. destruct I.
      + split; [cbn [length]; lia | exact V].
    - intros [L V]. apply in_report. do 6 right.
      assert (NE : test_lines output <> []).
      { intros E. unfold continuation_lines in L. rewrite E in L. cbn in L. lia. }
      split; [exact NE|]. do 3 right. apply in_judge_report.
      destruct (continuation_lines output) as [|first [|second cl]];
        cbn [length] in L; try lia.
      right. right. split; [exact V | reflexivity]. }
  split; [exact A|].
  intros [I C]. apply A in I as [_ V]. apply returns_verdict in V.
  apply cumulative_printed in C. rewrite analyze_run in C. cbn [fst] in C.
  rewrite report_cumulative in C. congruence.
Qed.

(** X11. The dump of the cleaned output lists exactly the lines that are
    not blank after trimming, each under its 1-based number, untrimmed and
    with its length. *)
Theorem dump_lists_nonblank_lines (output : str) (n : nat) (line : str) (len : nat) :
  In (PrintLine n line len) (fst (analyze_terminal_output output)) <->
  1 <= n /\ nth_error (lines output) (n - 1) = Some line
  /\ strip line <> [] /\ len = length line.
Proof.
  rewrite analyze_run. cbn [fst]. rewrite in_report. split.
  - intros [H|[H|[H|[H|[H|[[_ H]|[_ H]]]]]]]; try discriminate.
    + apply in_dump in H as (i & l & I & S & [= -> -> ->]).
      rewrite Nat.add_sub. repeat split; [lia | exact I | exact S].
    + destruct H as [H|[H|[H|H]]]; try discriminate.
      * apply in_echo in H as (tl & _ & [H|H]); discriminate.
      * apply in_judge_report in H.
        destruct (continuation_lines output) as [|first [|second cl]]; try discriminate.
        destruct H as [H|[H|[_ H]]]; try discriminate.
        apply judge_log_sound in H. destruct H.
  - intros (P & I & S & ->). do 3 right. left. apply in_dump.
    exists (n - 1), line. repeat split; [exact I | exact S|].
    replace (n - 1 + 1) with n by lia. reflexivity.
Qed.

(** X12. Every match record is echoed, also one that holds the marker and
    is left out of the check: a line is echoed under its 1-based number,
    with its trimmed content and its count of leading spaces, exactly when
    it holds a recognition token. *)
Theorem every_match_is_echoed (output : str) (n : nat) (text : str) (k : nat) :
  In (PrintMatch n text k) (fst (analyze_terminal_output output)) <->
  exists line,
    1 <= n /\ nth_error (lines output) (n - 1) = Some line
    /\ has_token line = true /\ text = strip line /\ k = indent line.
Proof.
  rewrite analyze_run. cbn [fst]. rewrite in_report. split.
  - intros [H|[H|[H|[H|[H|[[_ H]|[_ H]]]]]]]; try discriminate.
    + apply in_dump in H as (i & l & _ & _ & H). discriminate.
    + destruct H as [H|[H|[H|H]]]; try discriminate.
      * apply in_echo in H as (tl & I & [H|H]); [|discriminate].
        injection H as -> -> ->.
        apply in_locate in I as (i & line & I & T & ->).
        cbn [record_of line_num content leading_spaces fst snd].
        exists line. rewrite Nat.add_sub, lstrip_space_indent.
        repeat split; [lia | exact I | exact T].
      * apply in_judge_report in H.
        destruct (continuation_lines output) as [|first [|second cl]]; try discriminate.
        destruct H as [H|[H|[_ H]]]; try discriminate.
        apply judge_log_sound in H. destruct H.
  - intros (line & P & I & T & -> & ->).
    assert (R : In (record_of (n - 1, line)) (test_lines output)).
    { apply in_locate. exists (n - 1), line. auto. }
    do 6 right. split; [intros E; rewrite E in R; destruct R|].
    left. apply in_echo. exists (record_of (n - 1, line)). split; [exact R|].
    left. cbn [record_of line_num content leading_spaces fst snd].
    rewrite lstrip_space_indent. replace (n - 1 + 1) with n by lia. reflexivity.
Qed.

(** X13. The number of continuation lines reported is the number of lines
    that hold a token and, trimmed, no marker; it is reported exactly when
    some line holds a token. *)
Theorem found_counts_judged_lines (output : str) (n : nat) :
  In (PrintFound n) (fst (analyze_terminal_output output)) <->
  (exists line, In line (lines output) /\ has_token line = true)
  /\ n = length (filter is_judged (lines output)).
Proof.
  assert (L : length (continuation_lines output) = length (filter is_judged (lines output))).
  { rewrite <- continuation_raw_lines. symmetry. apply length_map. }
  assert (T : test_lines output <> [] <->
              exists line, In line (lines output) /\ has_token line = true).
  { split.
    - intros NE. destruct (test_lines output) as [|tl ts] eqn:E; [congruence|].
      assert (I : In tl (locate (lines output))).
      { unfold test_lines in E. rewrite E. left. reflexivity. }
      apply in_locate in I as (i & line & I & Ht & _).
      exists line. split; [apply (nth_error_In _ _ I) | exact Ht].
    - intros (line & I & Ht) E.
      assert (F : In line (filter has_token (lines output)))
        by (apply filter_In; auto).
      rewrite <- test_raw_lines, E in F. destruct F. }
  rewrite analyze_run. cbn [fst]. rewrite in_report, <- T, <- L. split.
  - intros [H|[H|[H|[H|[H|[[_ H]|[NE H]]]]]]]; try discriminate.
    + apply in_dump in H as (i & l & _ & _ & H). discriminate.
    + split; [exact NE|]. destruct H as [H|[H|[H|H]]]; try discriminate.
      * apply in_echo in H as (tl & _ & [H|H]); discriminate.
      * injection H as ->. reflexivity.
      * apply in_judge_report in H.
        destruct (continuation_lines output) as [|first [|second cl]]; try discriminate.
        destruct H as [H|[H|[_ H]]]; try discriminate.
        apply judge_log_sound in H. destruct H.
  - intros [NE ->]. do 6 right. split; [exact NE|]. right. right. left. reflexivity.
Qed.
